(** * coin-tax: CSV ingestion and tax aggregation

    A shallow embedding of [src/app/page.tsx]: the trade list held by the
    [Home] component, the handlers that update it, the CSV import pipeline
    ([parseCsvLine], [normalizeNumber], [normalizeDate], [toTradeType],
    [parseCsvToTrades], [handleFileSelect]) and the [totals] reduction.

    JavaScript strings are sequences of UTF-16 code units and JavaScript
    numbers are IEEE 754 binary64 values; both are modelled as such. *)

From Stdlib Require Import ZArith NArith List Bool Lia String Ascii Floats.
From Stdlib Require Import DecimalString.
Import ListNotations.

Set Warnings "-inexact-float".

(** ** JavaScript strings *)

Module Js.

Local Open Scope N_scope.

(** A string is the list of its UTF-16 code units. *)
Definition jsstring := list N.

(** Literals of the source are written as Rocq strings, which hold the bytes
    of their UTF-8 encoding; [utf16] decodes them (one, two and three byte
    sequences: the source has no character outside the basic plane). *)
Fixpoint utf16_of_bytes (bs : list N) : jsstring :=
  match bs with
  | [] => []
  | b0 :: rest =>
      if N.ltb b0 128 then b0 :: utf16_of_bytes rest
      else if N.ltb b0 224 then
        match rest with
        | b1 :: rest1 =>
            N.lor (N.shiftl (N.land b0 31) 6) (N.land b1 63) :: utf16_of_bytes rest1
        | [] => [65533]
        end
      else
        match rest with
        | b1 :: b2 :: rest2 =>
            N.lor (N.shiftl (N.land b0 15) 12)
                  (N.lor (N.shiftl (N.land b1 63) 6) (N.land b2 63))
              :: utf16_of_bytes rest2
        | _ => [65533]
        end
  end.

Definition utf16 (s : string) : jsstring :=
  utf16_of_bytes (map N_of_ascii (list_ascii_of_string s)).

Definition QUOTE : N := 34.
Definition COMMA : N := 44.
Definition LF : N := 10.
Definition CR : N := 13.

(** WhiteSpace and LineTerminator code points of ECMAScript, the characters
    that [String.prototype.trim] strips and that [parseFloat] skips. *)
Definition isWhiteSpace (c : N) : bool :=
  existsb (N.eqb c)
    [9; 10; 11; 12; 13; 32; 160; 5760; 8232; 8233; 8239; 8287; 12288; 65279]
  || (N.leb 8192 c && N.leb c 8202).

Fixpoint trimStart (s : jsstring) : jsstring :=
  match s with
  | [] => []
  | c :: rest => if isWhiteSpace c then trimStart rest else s
  end.

Definition trimEnd (s : jsstring) : jsstring := rev (trimStart (rev s)).

(** [s.trim()] *)
Definition trim (s : jsstring) : jsstring := trimEnd (trimStart s).

(** [s.toLowerCase()]. The letters A to Z map to a to z, and two characters
    outside ASCII have an ASCII letter in their lower case: the Kelvin sign
    (U+212A) maps to k, and I with dot above (U+0130) to i followed by a
    combining dot (U+0307). Hangul has no case. The other cased letters map
    to letters outside ASCII and are left as they are here, which does not
    change which ASCII or Hangul words a string contains. *)
Definition lowerUnit (c : N) : list N :=
  if N.leb 65 c && N.leb c 90 then [c + 32]
  else if N.eqb c 8490 then [107]
  else if N.eqb c 304 then [105; 775]
  else [c].

Definition toLowerCase (s : jsstring) : jsstring := flat_map lowerUnit s.

Fixpoint startsWith (s word : jsstring) : bool :=
  match word, s with
  | [], _ => true
  | _ :: _, [] => false
  | w :: word', c :: s' => N.eqb c w && startsWith s' word'
  end.

(** [s.includes(word)] *)
Fixpoint includes (s word : jsstring) : bool :=
  startsWith s word ||
  match s with
  | [] => false
  | _ :: s' => includes s' word
  end.

(** [s.slice(0, n)] for a non-negative [n]. *)
Definition slice0 (n : nat) (s : jsstring) : jsstring := firstn n s.

(** [s.replace(/,/g, empty)]: every comma is removed. *)
Definition removeCommas (s : jsstring) : jsstring :=
  filter (fun c => negb (N.eqb c COMMA)) s.

(** [text.split(/\r?\n/)]: a separator is a line feed, or a carriage return
    directly followed by a line feed. [current] is the piece being read. *)
Fixpoint splitLinesFrom (text current : jsstring) : list jsstring :=
  match text with
  | [] => [current]
  | c :: rest =>
      if N.eqb c LF then current :: splitLinesFrom rest []
      else
        match rest with
        | c' :: rest' =>
            if N.eqb c CR && N.eqb c' LF
            then current :: splitLinesFrom rest' []
            else splitLinesFrom rest (current ++ [c])
        | [] => splitLinesFrom rest (current ++ [c])
        end
  end.

Definition splitLines (text : jsstring) : list jsstring := splitLinesFrom text [].

(** [a === b] on strings. *)
Fixpoint jsstring_eqb (a b : jsstring) : bool :=
  match a, b with
  | [], [] => true
  | x :: a', y :: b' => N.eqb x y && jsstring_eqb a' b'
  | _, _ => false
  end.

(** Truthiness of a string, as [filter(Boolean)] and [!value] use it. *)
Definition truthy (s : jsstring) : bool :=
  match s with [] => false | _ :: _ => true end.

(** ** JavaScript numbers

    A number is a binary64 value ([float], the kernel's primitive type). *)

Definition isDigit (c : N) : bool := N.leb 48 c && N.leb c 57.

(** The longest prefix of decimal digits, and what follows it. *)
Fixpoint spanDigits (s : jsstring) : jsstring * jsstring :=
  match s with
  | [] => ([], [])
  | c :: rest =>
      if isDigit c
      then let (ds, tl) := spanDigits rest in (c :: ds, tl)
      else ([], s)
  end.

(** The integer a digit string denotes, continuing from [acc]. *)
Definition digitsValue (acc : Z) (ds : jsstring) : Z :=
  fold_left (fun v c => (10 * v + Z.of_N (c - 48))%Z) ds acc.

(** The number value of [m * 10 ^ e10] with sign [neg], for [0 <= m]:
    the binary64 value nearest to it, ties to even, through the rounding
    functions that specify the primitive operations (an integer is rounded
    as such, a fraction as the quotient of two integers). *)
Definition roundDecimal (neg : bool) (m e10 : Z) : float :=
  SF2Prim
    match m with
    | Z0 => S754_zero neg
    | Zpos p =>
        if Z.leb 0 e10
        then binary_normalize prec emax
               (cond_Zopp neg (Zpos p * 10 ^ e10)%Z) 0%Z false
        else
          let '(q, e, l) :=
            SFdiv_core_binary prec emax (Zpos p) 0%Z (10 ^ (- e10))%Z 0%Z in
          binary_round_aux prec emax neg q e l
    | Zneg _ => S754_nan
    end.

(** The exponent part of a literal, [e] or [E], an optional sign and at
    least one digit: its value and what follows it. Anything else is not an
    exponent part and is left unread. *)
Definition readExponent (s : jsstring) : Z * jsstring :=
  match s with
  | c :: rest =>
      if N.eqb c 101 || N.eqb c 69 then
        let (negative, body) :=
          match rest with
          | sg :: rest' =>
              if N.eqb sg 45 then (true, rest')
              else if N.eqb sg 43 then (false, rest')
              else (false, rest)
          | [] => (false, rest)
          end in
        match spanDigits body with
        | ([], _) => (0%Z, s)
        | (ds, tl) => (cond_Zopp negative (digitsValue 0%Z ds), tl)
        end
      else (0%Z, s)
  | [] => (0%Z, s)
  end.

(** The longest prefix that is a StrUnsignedDecimalLiteral, as a number of
    sign [neg]; [NaN] when there is none. *)
Definition parseUnsigned (neg : bool) (s : jsstring) : float :=
  if startsWith s (utf16 "Infinity")
  then (if neg then neg_infinity else infinity)
  else
    let (intDigits, afterInt) := spanDigits s in
    let (fracDigits, afterFrac) :=
      match afterInt with
      | c :: rest => if N.eqb c 46 then spanDigits rest else ([], afterInt)
      | [] => ([], afterInt)
      end in
    match intDigits, fracDigits with
    | [], [] => nan
    | _, _ =>
        let (e, _) := readExponent afterFrac in
        roundDecimal neg
          (digitsValue (digitsValue 0%Z intDigits) fracDigits)
          (e - Z.of_nat (List.length fracDigits))%Z
    end.

(** [Number.parseFloat(s)]: leading white space is skipped, then the longest
    prefix that is a StrDecimalLiteral is read. *)
Definition parseFloat (s : jsstring) : float :=
  match trimStart s with
  | c :: rest =>
      if N.eqb c 45 then parseUnsigned true rest
      else if N.eqb c 43 then parseUnsigned false rest
      else parseUnsigned false (c :: rest)
  | [] => nan
  end.

(** [Number.isFinite(x)] *)
Definition isFinite (x : float) : bool := is_finite x.

Definition isPositiveZero (x : float) : bool :=
  match classify x with PZero => true | _ => false end.

Definition isNegativeZero (x : float) : bool :=
  match classify x with NZero => true | _ => false end.

(** [Math.max(...values)], the loop of the language specification: [NaN] as
    soon as a value is [NaN]; [+0] counts as larger than [-0]. *)
Fixpoint maxFrom (highest : float) (values : list float) : float :=
  match values with
  | [] => highest
  | number :: rest =>
      if is_nan number then nan
      else if isNegativeZero highest && isPositiveZero number
      then maxFrom number rest
      else if (highest <? number)%float then maxFrom number rest
      else maxFrom highest rest
  end.

Definition Math_max (values : list float) : float := maxFrom neg_infinity values.

(** [Math.min(...values)], the same loop: [NaN] as soon as a value is [NaN];
    [-0] counts as smaller than [+0]. *)
Fixpoint minFrom (lowest : float) (values : list float) : float :=
  match values with
  | [] => lowest
  | number :: rest =>
      if is_nan number then nan
      else if isPositiveZero lowest && isNegativeZero number
      then minFrom number rest
      else if (number <? lowest)%float then minFrom number rest
      else minFrom lowest rest
  end.

Definition Math_min (values : list float) : float := minFrom infinity values.

(** [Math.abs(x)] *)
Definition Math_abs (x : float) : float := abs x.

(** [x || fallback] on numbers: [NaN], [+0] and [-0] are falsy. *)
Definition orNumber (x fallback : float) : float :=
  if is_nan x || (x =? 0)%float then fallback else x.

End Js.

Import Js.

(** ** The data model *)

Inductive TradeType := buy | sell.

Record Trade := {
  id : jsstring;
  date : jsstring;
  type : TradeType;
  amount : float;
  price : float;
  amountInput : jsstring;
  priceInput : jsstring
}.

Definition BASIC_DEDUCTION : float := 2500000.
Definition TAX_RATE : float := 0.22.

(** What the page asks of the browser. [randomUUID n] is the identifier
    that the [n]-th row made by the page receives from
    [crypto.randomUUID()] (rows are counted from 0 in the state of the
    component). The page calls [crypto.randomUUID()] more often than that:
    the argument of [useState] is evaluated again on every render and its
    value dropped, so the values of those calls reach no row and are not
    part of the sequence. [nowISOString] is [new Date().toISOString()],
    [dateISOString value] is [new Date(value).toISOString()], or [None] when
    the time value of [new Date(value)] is [NaN], and [numberToString x]
    is [String(x)]. *)
Record Host := {
  randomUUID : nat -> jsstring;
  nowISOString : jsstring;
  dateISOString : jsstring -> option jsstring;
  numberToString : float -> jsstring
}.

(** The state of [Home]: the two [useState] cells, and how many identifiers
    have been drawn for rows so far. *)
Record AppState := {
  trades : list Trade;
  importMessage : option jsstring;
  uuidsDrawn : nat
}.

Section Home.

Variable h : Host.

Definition createEmptyTrade (n : nat) : Trade :=
  {| id := randomUUID h n;
     date := slice0 10 (nowISOString h);
     type := buy;
     amount := 0;
     price := 0;
     amountInput := [];
     priceInput := [] |}.

(** [useState<Trade[]>([createEmptyTrade()])] and [useState(null)]. *)
Definition initialState : AppState :=
  {| trades := [createEmptyTrade 0]; importMessage := None; uuidsDrawn := 1 |}.

(** *** The template offered for download

    Rocq strings have no escape sequences: [\n] below is a backslash
    followed by the letter n, which is what the source writes, with the
    backslash doubled, at the end of each of the three lines. *)
Definition templateCsv : jsstring :=
  utf16 "date,type,amount,price\n" ++
  utf16 "2025-01-01,buy,1,500000\n" ++
  utf16 "2025-01-02,sell,0.5,600000\n".

(** *** Totals *)

Record Totals := {
  totalBuy : float;
  totalSell : float;
  profit : float;
  taxable : float;
  tax : float
}.

(** The callback of [deferredTrades.reduce], on the pair of accumulators
    ([totalBuy], [totalSell]). *)
Definition addGross (acc : float * float) (trade : Trade) : float * float :=
  let gross := (amount trade * price trade)%float in
  match type trade with
  | buy => (fst acc + gross, snd acc)%float
  | sell => (fst acc, snd acc + gross)%float
  end.

Definition totals (deferredTrades : list Trade) : Totals :=
  let acc := fold_left addGross deferredTrades (0, 0)%float in
  let profit := (snd acc - fst acc)%float in
  let taxable := Math_max [0%float; (profit - BASIC_DEDUCTION)%float] in
  let tax := (taxable * TAX_RATE)%float in
  {| totalBuy := fst acc; totalSell := snd acc;
     profit := profit; taxable := taxable; tax := tax |}.

Definition netAfterTax (t : Totals) : float :=
  if (0 <? profit t)%float
  then Math_max [0%float; (profit t - tax t)%float]
  else profit t.

(** *** The charts *)

(** The [value] fields of [chartItems], in their order. *)
Definition chartValues (t : Totals) : list float :=
  [profit t; taxable t; tax t; netAfterTax t].

Definition maxChartValue (t : Totals) : float :=
  Math_max (map Math_abs (chartValues t) ++ [1%float]).

Definition totalPositive (t : Totals) : float :=
  orNumber
    (fold_left (fun acc value => (acc + Math_max [0%float; value])%float)
               (chartValues t) 0%float)
    1%float.

(** The width of the bar of an item, in percent. *)
Definition barWidth (t : Totals) (value : float) : float :=
  Math_min [100%float; (Math_abs value / maxChartValue t * 100)%float].

(** [portion] and [dash] of the slice of an item in the donut. *)
Definition portion (t : Totals) (value : float) : float :=
  (Math_max [0%float; value] / totalPositive t)%float.

Definition dash (t : Totals) (value : float) : float :=
  (portion t value * 100)%float.

(** The [offset] that the reduce over the items has reached after [values]. *)
Definition offsetAfter (t : Totals) (values : list float) : float :=
  fold_left (fun offset value => (offset + dash t value)%float) values 0%float.

(** *** Handlers of the table *)

(** [handleTradeChange(id, key, value)], at the two keys the table calls it
    with. *)
Inductive TradeField :=
  | DateField (value : jsstring)
  | TypeField (value : TradeType).

Definition handleTradeChange (id0 : jsstring) (field : TradeField)
    (prev : list Trade) : list Trade :=
  map (fun trade =>
         if jsstring_eqb (id trade) id0 then
           match field with
           | DateField value =>
               {| id := id trade; date := value; type := type trade;
                  amount := amount trade; price := price trade;
                  amountInput := amountInput trade;
                  priceInput := priceInput trade |}
           | TypeField value =>
               {| id := id trade; date := date trade; type := value;
                  amount := amount trade; price := price trade;
                  amountInput := amountInput trade;
                  priceInput := priceInput trade |}
           end
         else trade) prev.

Definition handleAmountChange (id0 value : jsstring)
    (prev : list Trade) : list Trade :=
  map (fun trade =>
         if negb (jsstring_eqb (id trade) id0) then trade
         else
           let parsed := parseFloat value in
           {| id := id trade; date := date trade; type := type trade;
              amount := if isFinite parsed then parsed else 0%float;
              price := price trade;
              amountInput := value;
              priceInput := priceInput trade |}) prev.

Definition handlePriceChange (id0 value : jsstring)
    (prev : list Trade) : list Trade :=
  map (fun trade =>
         if negb (jsstring_eqb (id trade) id0) then trade
         else
           let parsed := parseFloat value in
           {| id := id trade; date := date trade; type := type trade;
              amount := amount trade;
              price := if isFinite parsed then parsed else 0%float;
              amountInput := amountInput trade;
              priceInput := value |}) prev.

Definition handleAddTrade (s : AppState) : AppState :=
  {| trades := trades s ++ [createEmptyTrade (uuidsDrawn s)];
     importMessage := importMessage s;
     uuidsDrawn := S (uuidsDrawn s) |}.

Definition handleDeleteTrade (id0 : jsstring) (prev : list Trade) : list Trade :=
  if Nat.eqb (List.length prev) 1 then prev
  else filter (fun trade => negb (jsstring_eqb (id trade) id0)) prev.

(** *** CSV import *)

Record LineScan := {
  result : list jsstring;
  current : jsstring;
  insideQuotes : bool
}.

(** The body of the loop of [parseCsvLine] past its first test: a quote
    flips the flag, a comma outside quotes closes the field, any other
    character joins the field. *)
Definition scanChar (char : N) (st : LineScan) : LineScan :=
  if N.eqb char QUOTE then
    {| result := result st; current := current st;
       insideQuotes := negb (insideQuotes st) |}
  else if N.eqb char COMMA && negb (insideQuotes st) then
    {| result := result st ++ [trim (current st)]; current := [];
       insideQuotes := insideQuotes st |}
  else
    {| result := result st; current := current st ++ [char];
       insideQuotes := insideQuotes st |}.

(** The first test of the loop, a quote that is followed by a quote: one
    quote joins the field and the index moves past both. *)
Definition emitQuote (st : LineScan) : LineScan :=
  {| result := result st; current := current st ++ [QUOTE];
     insideQuotes := insideQuotes st |}.

Fixpoint scanLine (line : jsstring) (st : LineScan) : LineScan :=
  match line with
  | [] => st
  | char :: rest =>
      match rest with
      | next :: rest' =>
          if N.eqb char QUOTE && N.eqb next QUOTE
          then scanLine rest' (emitQuote st)
          else scanLine rest (scanChar char st)
      | [] => scanLine rest (scanChar char st)
      end
  end.

Definition parseCsvLine (line : jsstring) : list jsstring :=
  let st := scanLine line {| result := []; current := []; insideQuotes := false |} in
  result st ++ [trim (current st)].

Definition normalizeNumber (value : option jsstring) : float :=
  match value with
  | None => nan
  | Some value =>
      if negb (truthy value) then nan
      else
        let cleaned := trim (removeCommas value) in
        if truthy cleaned then parseFloat cleaned else nan
  end.

Definition normalizeDate (value : option jsstring) : jsstring :=
  match value with
  | None => slice0 10 (nowISOString h)
  | Some value =>
      if negb (truthy value) then slice0 10 (nowISOString h)
      else
        match dateISOString h value with
        | Some iso => slice0 10 iso
        | None => slice0 10 value
        end
  end.

Definition buyWords : list jsstring :=
  [utf16 "매수"; utf16 "bid"; utf16 "buy"; utf16 "입금"; utf16 "deposit"].

Definition toTradeType (raw : option jsstring) : TradeType :=
  let value := toLowerCase (match raw with Some r => r | None => [] end) in
  if existsb (fun word => includes value word) buyWords then buy else sell.

(** [array.findIndex(p)], counting from [i]; -1 when no element passes. *)
Fixpoint findIndexFrom {A : Type} (p : A -> bool) (l : list A) (i : Z) : Z :=
  match l with
  | [] => (-1)%Z
  | x :: rest => if p x then i else findIndexFrom p rest (i + 1)%Z
  end.

Definition getColumnIndex (header candidates : list jsstring) : Z :=
  findIndexFrom
    (fun col => existsb (fun candidate => includes col candidate) candidates)
    header 0%Z.

Definition getCell (cells : list jsstring) (idx : Z) : option jsstring :=
  if Z.leb 0 idx && Z.ltb idx (Z.of_nat (List.length cells))
  then nth_error cells (Z.to_nat idx)
  else None.

Record Columns := {
  dateIdx : Z;
  typeIdx : Z;
  amountIdx : Z;
  priceIdx : Z;
  totalIdx : Z
}.

Definition columnsOf (header : list jsstring) : Columns :=
  {| dateIdx := getColumnIndex header
       [utf16 "date"; utf16 "time"; utf16 "timestamp"; utf16 "일시"; utf16 "거래일시"];
     typeIdx := getColumnIndex header
       [utf16 "side"; utf16 "type"; utf16 "trade"; utf16 "구분"; utf16 "거래유형"];
     amountIdx := getColumnIndex header
       [utf16 "amount"; utf16 "qty"; utf16 "quantity"; utf16 "volume"; utf16 "수량"];
     priceIdx := getColumnIndex header
       [utf16 "price"; utf16 "가격"; utf16 "단가"];
     totalIdx := getColumnIndex header
       [utf16 "total"; utf16 "amount(krw)"; utf16 "krw"; utf16 "fill total";
        utf16 "거래금액"] |}.

(** [resolvedPrice] of the loop of [parseCsvToTrades]. *)
Definition resolvePrice (price total amount : float) : float :=
  if isFinite price && (0 <? price)%float then price
  else if isFinite total && isFinite amount && (0 <? amount)%float
  then (total / amount)%float
  else nan.

(** One turn of the loop of [parseCsvToTrades] on a data line: the trade it
    pushes, with the [n]-th identifier, or [None] where it [continue]s. *)
Definition rowToTrade (cols : Columns) (line : jsstring) (n : nat) : option Trade :=
  let cells := parseCsvLine line in
  if Nat.eqb (List.length cells) 0 then None
  else
    let amount := normalizeNumber (getCell cells (amountIdx cols)) in
    let price := normalizeNumber (getCell cells (priceIdx cols)) in
    let total := normalizeNumber (getCell cells (totalIdx cols)) in
    let resolvedAmount := if isFinite amount then amount else nan in
    let resolvedPrice := resolvePrice price total amount in
    if negb (isFinite resolvedAmount) || negb (isFinite resolvedPrice) then None
    else
      Some {| id := randomUUID h n;
              date := normalizeDate (getCell cells (dateIdx cols));
              type := toTradeType (getCell cells (typeIdx cols));
              amount := resolvedAmount;
              price := resolvedPrice;
              amountInput :=
                if isFinite resolvedAmount then numberToString h resolvedAmount else [];
              priceInput :=
                if isFinite resolvedPrice then numberToString h resolvedPrice else [] |}.

(** The loop over the data lines; [n] identifiers have been drawn so far. *)
Fixpoint parseRows (cols : Columns) (rows : list jsstring) (n : nat)
    (parsedTrades : list Trade) : list Trade * nat :=
  match rows with
  | [] => (parsedTrades, n)
  | line :: rest =>
      match rowToTrade cols line n with
      | None => parseRows cols rest n parsedTrades
      | Some trade => parseRows cols rest (S n) (parsedTrades ++ [trade])
      end
  end.

(** The non-blank lines of a text, trimmed. *)
Definition linesOf (text : jsstring) : list jsstring :=
  filter truthy (map trim (splitLines text)).

(** [parseCsvToTrades(text)], with the count of identifiers threaded. *)
Definition parseCsvToTrades (text : jsstring) (n : nat) : list Trade * nat :=
  let lines := linesOf text in
  if Nat.ltb (List.length lines) 2 then ([], n)
  else
    let header := map toLowerCase (parseCsvLine (nth 0 lines [])) in
    parseRows (columnsOf header) (skipn 1 lines) n [].

Definition decimal (n : nat) : jsstring :=
  utf16 (NilEmpty.string_of_uint (Nat.to_uint n)).

Definition noRowsMessage : jsstring :=
  utf16 "CSV에서 읽을 수 있는 행이 없습니다. 헤더를 확인해주세요.".

Definition addedMessage (count : nat) : jsstring :=
  utf16 "CSV에서 " ++ decimal count ++ utf16 "건을 추가했습니다.".

(** [reader.onload] of [handleFileSelect], on the text of the file. *)
Definition handleFileLoaded (content : jsstring) (s : AppState) : AppState :=
  let (importedTrades, n) := parseCsvToTrades content (uuidsDrawn s) in
  if Nat.eqb (List.length importedTrades) 0 then
    {| trades := trades s;
       importMessage := Some noRowsMessage;
       uuidsDrawn := n |}
  else
    {| trades := trades s ++ importedTrades;
       importMessage := Some (addedMessage (List.length importedTrades));
       uuidsDrawn := n |}.

(** *** The events of the page *)

Inductive Event :=
  | AddTrade
  | DeleteTrade (id0 : jsstring)
  | TradeChange (id0 : jsstring) (field : TradeField)
  | AmountChange (id0 value : jsstring)
  | PriceChange (id0 value : jsstring)
  | FileLoaded (content : jsstring).

Definition setTrades (f : list Trade -> list Trade) (s : AppState) : AppState :=
  {| trades := f (trades s);
     importMessage := importMessage s;
     uuidsDrawn := uuidsDrawn s |}.

Definition step (s : AppState) (e : Event) : AppState :=
  match e with
  | AddTrade => handleAddTrade s
  | DeleteTrade id0 => setTrades (handleDeleteTrade id0) s
  | TradeChange id0 field => setTrades (handleTradeChange id0 field) s
  | AmountChange id0 value => setTrades (handleAmountChange id0 value) s
  | PriceChange id0 value => setTrades (handlePriceChange id0 value) s
  | FileLoaded content => handleFileLoaded content s
  end.

Definition run (events : list Event) : AppState :=
  fold_left step events initialState.

End Home.

(** ** Notions used by the statements *)

(** [w] spells [word] up to the case of its ASCII letters: each code unit
    of [w] is the code unit of [word] at the same place, or the capital
    letter A to Z of it. *)
Definition spells (w word : jsstring) : Prop :=
  Forall2 (fun c l => c = l \/ ((65 <= c)%N /\ (c <= 90)%N /\ l = (c + 32)%N))
          w word.

Definition isBuy (t : Trade) : bool :=
  match type t with buy => true | sell => false end.

Definition isSell (t : Trade) : bool :=
  match type t with buy => false | sell => true end.

(** The sum of [amount * price] over a list of trades, added from the left
    starting at 0, as binary64 additions. *)
Definition sumGross (ts : list Trade) : float :=
  fold_left (fun sum t => (sum + amount t * price t)%float) ts 0%float.

Definition finiteTrade (t : Trade) : bool :=
  isFinite (amount t) && isFinite (price t).

(** The tokenizer as the specification words it, to compare with
    [parseCsvLine]:
    the same scan, except that a doubled quote is an escape only while the
    scan is inside quotes. *)
Fixpoint specScanLine (line : jsstring) (st : LineScan) : LineScan :=
  match line with
  | [] => st
  | char :: rest =>
      match rest with
      | next :: rest' =>
          if insideQuotes st && N.eqb char QUOTE && N.eqb next QUOTE
          then specScanLine rest' (emitQuote st)
          else specScanLine rest (scanChar char st)
      | [] => specScanLine rest (scanChar char st)
      end
  end.

Definition specParseCsvLine (line : jsstring) : list jsstring :=
  let st :=
    specScanLine line {| result := []; current := []; insideQuotes := false |} in
  result st ++ [trim (current st)].

(** The three numeric cells of a data line, as the loop reads them. *)
Definition amountCell (cols : Columns) (line : jsstring) : float :=
  normalizeNumber (getCell (parseCsvLine line) (amountIdx cols)).

Definition priceCell (cols : Columns) (line : jsstring) : float :=
  normalizeNumber (getCell (parseCsvLine line) (priceIdx cols)).

Definition totalCell (cols : Columns) (line : jsstring) : float :=
  normalizeNumber (getCell (parseCsvLine line) (totalIdx cols)).

(** The lower-cased header of an export with a total and a quantity but no
    price column, [Fill Total,Quantity,Side]. *)
Definition fillTotalHeader : list jsstring :=
  map toLowerCase (parseCsvLine (utf16 "Fill Total,Quantity,Side")).

(** What a row resolves to, the identifier left aside. *)
Definition tradeData (t : Trade) : jsstring * TradeType * float * float :=
  (date t, type t, amount t, price t).

(** What the rows of a file resolve to, in the order of the file: the data
    of each row that is kept. *)
Definition rowsData (h : Host) (cols : Columns) (rows : list jsstring)
    : list (jsstring * TradeType * float * float) :=
  flat_map (fun line =>
              match rowToTrade h cols line 0 with
              | Some t => [tradeData t]
              | None => []
              end) rows.

(** The columns that [parseCsvToTrades] finds in the first line of a text. *)
Definition columnsOfText (text : jsstring) : Columns :=
  columnsOf (map toLowerCase (parseCsvLine (nth 0 (linesOf text) []))).

(** The trades of a state carry distinct identifiers, all of them drawn
    before, and there is at least one trade. *)
Definition wellFormed (h : Host) (s : AppState) : Prop :=
  NoDup (map id (trades s)) /\
  1 <= List.length (trades s) /\
  Forall (fun t => exists k, k < uuidsDrawn s /\ id t = randomUUID h k)
         (trades s).

(** A host for the examples: identifiers [x], [xx], [xxx] and so on, a fixed
    clock, dates that never parse, numbers printed as the empty string. *)
Definition demoHost : Host :=
  {| randomUUID := fun n => repeat 120%N (S n);
     nowISOString := utf16 "2025-01-01T00:00:00.000Z";
     dateISOString := fun _ => None;
     numberToString := fun _ => [] |}.

(** The template as it was meant: the three lines end in line feeds. *)
Definition templateLines : jsstring :=
  utf16 "date,type,amount,price" ++ [LF] ++
  utf16 "2025-01-01,buy,1,500000" ++ [LF] ++
  utf16 "2025-01-02,sell,0.5,600000" ++ [LF].

(** *** Notions for the tokenizer and the line splitter *)

(** The pieces of a string between its commas; [field] is the piece being
    read. *)
Fixpoint splitCommas (s field : jsstring) : list jsstring :=
  match s with
  | [] => [field]
  | c :: rest =>
      if N.eqb c COMMA then field :: splitCommas rest []
      else splitCommas rest (field ++ [c])
  end.

(** Fields written one after the other with a comma in between. *)
Fixpoint joinCommas (fields : list jsstring) : jsstring :=
  match fields with
  | [] => []
  | [field] => field
  | field :: others => field ++ COMMA :: joinCommas others
  end.

(** A field between two quotes. *)
Definition quoted (field : jsstring) : jsstring := QUOTE :: field ++ [QUOTE].

Definition hasNo (c : N) (s : jsstring) : Prop := ~ In c s.

(** A string that neither starts nor ends with white space. *)
Definition noEdgeSpace (s : jsstring) : Prop :=
  (forall c, hd_error s = Some c -> isWhiteSpace c = false) /\
  (forall c, hd_error (rev s) = Some c -> isWhiteSpace c = false).

(** The same text with every line feed written as a carriage return and a
    line feed. *)
Definition withCRLF (text : jsstring) : jsstring :=
  flat_map (fun c => if N.eqb c LF then [CR; LF] else [c]) text.

(** A column of a header that matches one of the candidate words. *)
Definition matchesAny (candidates : list jsstring) (col : jsstring) : bool :=
  existsb (fun candidate => includes col candidate) candidates.

Definition countCommas (s : jsstring) : nat :=
  List.length (filter (fun c => N.eqb c COMMA) s).

(** Shapes of a binary64 value: above zero, and zero or below. *)
Definition isPositive (x : spec_float) : Prop :=
  match x with
  | S754_finite false _ _ | S754_infinity false => True
  | _ => False
  end.

Definition isNotPositive (x : spec_float) : Prop :=
  match x with
  | S754_zero _ | S754_finite true _ _ | S754_infinity true => True
  | _ => False
  end.

(** Any number but the negative zero. *)
Definition notNegativeZero (x : float) : Prop := Prim2SF x <> S754_zero true.

Definition MINUS : N := 45.

(** A value that is zero, infinite or finite, with sign [s]: never [NaN]. *)
Definition hasSign (s : bool) (x : spec_float) : Prop :=
  match x with
  | S754_zero s' | S754_infinity s' | S754_finite s' _ _ => s' = s
  | S754_nan => False
  end.


(** * Properties *)

(** *** Signs of rounded results *)

Section Rounding.

Variables prec emax : Z.

Lemma shr_1_nonneg (r : shr_record) :
  (0 <= shr_m r)%Z -> (0 <= shr_m (shr_1 r))%Z.
Proof.
  destruct r as [m r s]; simpl.
  destruct m as [|[p|p|]|[p|p|]]; simpl; lia.
Qed.

Lemma iter_shr_1_nonneg (n : positive) :
  forall r, (0 <= shr_m r)%Z -> (0 <= shr_m (iter_pos shr_1 n r))%Z.
Proof.
  induction n as [n IH|n IH|]; intros r Hr; simpl.
  - apply IH, IH, shr_1_nonneg, Hr.
  - apply IH, IH, Hr.
  - apply shr_1_nonneg, Hr.
Qed.

Lemma shr_fexp_nonneg (m e : Z) (l : location) :
  (0 <= m)%Z -> (0 <= shr_m (fst (shr_fexp prec emax m e l)))%Z.
Proof.
  intros Hm. unfold shr_fexp, shr.
  assert (H0 : (0 <= shr_m (shr_record_of_loc m l))%Z)
    by (destruct l as [|[]]; exact Hm).
  destruct (fexp prec emax (Zdigits2 m + e) - e)%Z; simpl; trivial.
  apply iter_shr_1_nonneg, H0.
Qed.

Lemma round_nearest_even_nonneg (m : Z) (l : location) :
  (0 <= m)%Z -> (0 <= round_nearest_even m l)%Z.
Proof.
  intros Hm. destruct l as [|[]]; simpl; try lia.
  destruct (Z.even m); lia.
Qed.

Lemma binary_round_aux_sign (s : bool) (m e : Z) (l : location) :
  (0 <= m)%Z -> hasSign s (binary_round_aux prec emax s m e l).
Proof.
  intros Hm. unfold binary_round_aux.
  pose proof (shr_fexp_nonneg m e l Hm) as H1.
  destruct (shr_fexp prec emax m e l) as [mrs' e']; simpl in H1.
  pose proof (shr_fexp_nonneg _ e' loc_Exact
                (round_nearest_even_nonneg _ (loc_of_shr_record mrs') H1)) as H2.
  destruct (shr_fexp prec emax _ e' loc_Exact) as [mrs'' e'']; simpl in H2.
  destruct (shr_m mrs''); simpl; try reflexivity; try lia.
  destruct (e'' <=? emax - prec)%Z; reflexivity.
Qed.

Lemma binary_round_sign (s : bool) (m : positive) (e : Z) :
  hasSign s (binary_round prec emax s m e).
Proof.
  unfold binary_round.
  destruct (shl_align m e _) as [mz ez].
  apply binary_round_aux_sign. lia.
Qed.

(** Taking a positive finite value from a negative finite one leaves a
    negative value. *)
Lemma SFsub_negative (m1 m2 : positive) (e1 e2 : Z) :
  hasSign true
    (SFsub prec emax (S754_finite true m1 e1) (S754_finite false m2 e2)).
Proof.
  simpl. apply binary_round_sign.
Qed.

End Rounding.

(** *** Comparisons with zero *)

Lemma Prim2SF_zero : Prim2SF 0 = S754_zero false.
Proof. reflexivity. Qed.

Lemma Prim2SF_BASIC_DEDUCTION :
  exists m e, Prim2SF BASIC_DEDUCTION = S754_finite false m e.
Proof. vm_compute. eauto. Qed.

Lemma leb_zero_sign (p : float) :
  (p <=? 0)%float = true ->
  match Prim2SF p with
  | S754_zero _ => True
  | S754_infinity s | S754_finite s _ _ => s = true
  | S754_nan => False
  end.
Proof.
  rewrite leb_spec, Prim2SF_zero.
  destruct (Prim2SF p) as [s|s| |s m e]; try destruct s; simpl; intros H;
    trivial; discriminate H.
Qed.

Lemma leb_zero_not_positive (p : float) :
  (p <=? 0)%float = true -> (0 <? p)%float = false.
Proof.
  intros H. apply leb_zero_sign in H.
  rewrite ltb_spec, Prim2SF_zero.
  destruct (Prim2SF p) as [s|s| |s m e]; try contradiction; subst; reflexivity.
Qed.

Lemma eqb_zero_not_positive (a : float) :
  (a =? 0)%float = true -> (0 <? a)%float = false.
Proof.
  rewrite eqb_spec, ltb_spec, Prim2SF_zero.
  destruct (Prim2SF a) as [s|s| |s m e]; try destruct s; simpl; intros H;
    trivial; discriminate H.
Qed.

Lemma hasSign_true_below_zero (x : float) :
  hasSign true (Prim2SF x) -> is_nan x = false /\ (0 <? x)%float = false.
Proof.
  unfold is_nan. rewrite eqb_spec, ltb_spec, Prim2SF_zero.
  destruct (Prim2SF x) as [s|s| |s m e]; simpl; intros H;
    try contradiction; subst; split; try reflexivity.
  unfold SFeqb, SFcompare.
  now rewrite Z.compare_refl, Pos.compare_cont_refl.
Qed.

(** A profit that is not positive stays below zero once the deduction is
    taken off, whatever the rounding. *)
Lemma loss_minus_deduction (p : float) :
  (p <=? 0)%float = true -> hasSign true (Prim2SF (p - BASIC_DEDUCTION)).
Proof.
  intros H. apply leb_zero_sign in H.
  rewrite sub_spec.
  destruct Prim2SF_BASIC_DEDUCTION as (mc & ec & ->).
  destruct (Prim2SF p) as [s|s| |s m e]; try contradiction; subst.
  - reflexivity.
  - reflexivity.
  - apply SFsub_negative.
Qed.

Lemma Math_max_zero (x : float) :
  Math_max [0%float; x] =
  if is_nan x then nan else if (0 <? x)%float then x else 0%float.
Proof. reflexivity. Qed.

Lemma taxable_of_loss (p : float) :
  (p <=? 0)%float = true ->
  Math_max [0%float; (p - BASIC_DEDUCTION)%float] = 0%float.
Proof.
  intros H. rewrite Math_max_zero.
  destruct (hasSign_true_below_zero _ (loss_minus_deduction _ H)) as [-> ->].
  reflexivity.
Qed.

(** ** The built-in functions on examples *)

Example utf16_hangul : utf16 "매수" = [47588; 49688]%N.
Proof. reflexivity. Qed.

Example toLowerCase_examples :
  toLowerCase (utf16 "Fill Total") = utf16 "fill total" /\
  toLowerCase (utf16 "매수 BUY") = utf16 "매수 buy".
Proof. split; reflexivity. Qed.

Example trim_examples :
  trim (utf16 "  a b  ") = utf16 "a b" /\ trim [9; 160; 65279]%N = [].
Proof. split; reflexivity. Qed.

Example splitLines_examples :
  splitLines (utf16 "a" ++ [CR; LF] ++ utf16 "b" ++ [LF; CR] ++ utf16 "c")
  = [utf16 "a"; utf16 "b"; [CR] ++ utf16 "c"].
Proof. reflexivity. Qed.

Example parseFloat_values :
  map (fun s => parseFloat (utf16 s))
    ["1"; "500000"; "0.5"; "600000"; " -5"; "0.1"; "1e-7"; "123.456e5xyz";
     "4.9e-324"; "2.2250738585072011e-308"; "9007199254740993"; "5."; ".5";
     "1e"; "-.5E+3"; "-0"; "1e309"; "-Infinity"; "1.7976931348623157e308";
     "0.30000000000000004"; "2e-324"; "3e-324"; "1,5"]%string
  = [1; 500000; 0.5; 600000; -5; 0.1; 1e-7; 12345600;
     4.9e-324; 2.2250738585072011e-308; 9007199254740992; 5; 0.5;
     1; -500; -0; infinity; neg_infinity; 1.7976931348623157e308;
     0.30000000000000004; 0; 4.9e-324; 1]%float.
Proof. vm_compute. reflexivity. Qed.

Example parseFloat_nan :
  map (fun s => is_nan (parseFloat (utf16 s)))
    ["."; "abc"; "-"; "e5"; "+-1"; "infinity"; " "]%string
  = [true; true; true; true; true; true; true]
  /\ is_nan (parseFloat []) = true.
Proof. vm_compute. split; reflexivity. Qed.

Example Math_max_values :
  map Math_max [[0; -3]; [0; 7]; [0; -0]; [-0; 0]; []; [0; neg_infinity]]%float
  = [0; 7; 0; 0; neg_infinity; 0]%float
  /\ is_nan (Math_max [0; nan]%float) = true.
Proof. vm_compute. split; reflexivity. Qed.

(** ** Tax aggregation *)

Lemma fold_addGross (ts : list Trade) :
  forall b s : float,
    fold_left addGross ts (b, s) =
    (fold_left (fun sum t => (sum + amount t * price t)%float) (filter isBuy ts) b,
     fold_left (fun sum t => (sum + amount t * price t)%float) (filter isSell ts) s).
Proof.
  induction ts as [|t ts IH]; intros b s; simpl.
  - reflexivity.
  - unfold addGross at 2, isBuy, isSell.
    destruct (type t); simpl; apply IH.
Qed.

(** C1. For every trade list, [totalBuy] and [totalSell] are the sums of
    amount * price over the buy and the sell trades, profit is their
    difference, taxable is max(0, profit - 2,500,000) (which is 0 unless the
    difference is positive), tax is taxable * 0.22, and netAfterTax is
    max(0, profit - tax) when profit > 0 and profit otherwise; whenever
    profit <= 0, tax is 0 and netAfterTax is profit. *)
Theorem totals_spec (ts : list Trade) :
  let t := totals ts in
  totalBuy t = sumGross (filter isBuy ts) /\
  totalSell t = sumGross (filter isSell ts) /\
  profit t = (totalSell t - totalBuy t)%float /\
  taxable t = Math_max [0; profit t - 2500000]%float /\
  taxable t =
    (let d := profit t - 2500000 in
     if is_nan d then nan else if 0 <? d then d else 0)%float /\
  tax t = (taxable t * 0.22)%float /\
  netAfterTax t =
    (if 0 <? profit t then Math_max [0; profit t - tax t] else profit t)%float /\
  ((profit t <=? 0)%float = true -> tax t = 0%float /\ netAfterTax t = profit t).
Proof.
  unfold totals, netAfterTax. rewrite fold_addGross.
  cbv zeta. cbn [totalBuy totalSell profit taxable tax fst snd].
  fold (sumGross (filter isBuy ts)) (sumGross (filter isSell ts)).
  set (p := (sumGross (filter isSell ts) - sumGross (filter isBuy ts))%float).
  do 7 (split; [reflexivity|]).
  intros Hloss. split.
  - change 2500000%float with BASIC_DEDUCTION.
    rewrite (taxable_of_loss _ Hloss). reflexivity.
  - now rewrite (leb_zero_not_positive _ Hloss).
Qed.

(** ** Strings *)

Lemma jsstring_eqb_eq (a b : jsstring) : jsstring_eqb a b = true <-> a = b.
Proof.
  revert b. induction a as [|x a IH]; intros [|y b]; simpl;
    try (split; [discriminate | discriminate]); try tauto.
  rewrite andb_true_iff, N.eqb_eq, IH.
  split; [intros [-> ->]; reflexivity | intros [= -> ->]; auto].
Qed.

Lemma jsstring_eqb_refl (a : jsstring) : jsstring_eqb a a = true.
Proof. now apply jsstring_eqb_eq. Qed.

Lemma startsWith_prefix (word : jsstring) :
  forall s, startsWith s word = true <-> exists post, s = word ++ post.
Proof.
  induction word as [|w word IH]; intros s.
  - destruct s; simpl; split; eauto.
  - destruct s as [|c s]; simpl.
    + split; [discriminate | intros (post & [=])].
    + rewrite andb_true_iff, N.eqb_eq, IH. split.
      * intros (-> & post & ->). eauto.
      * intros (post & [= -> ->]). eauto.
Qed.

(** [includes] is the substring test. *)
Lemma includes_substring (word : jsstring) :
  forall s, includes s word = true <-> exists pre post, s = pre ++ word ++ post.
Proof.
  induction s as [|c s IH].
  - cbn [includes]. rewrite orb_false_r, startsWith_prefix. split.
    + intros (post & ->). exists [], post. reflexivity.
    + intros (pre & post & H). destruct pre as [|x pre]; [eauto | discriminate H].
  - cbn [includes]. rewrite orb_true_iff, startsWith_prefix, IH. split.
    + intros [(post & ->) | (pre & post & ->)].
      * exists [], post. reflexivity.
      * exists (c :: pre), post. reflexivity.
    + intros (pre & post & H). destruct pre as [|x pre].
      * left. eauto.
      * right. injection H as -> ->. eauto.
Qed.

(** ** The line tokenizer *)

Lemma parseCsvLine_nonempty (line : jsstring) :
  Nat.eqb (List.length (parseCsvLine line)) 0 = false.
Proof.
  unfold parseCsvLine. cbv zeta. rewrite length_app. simpl.
  apply Nat.eqb_neq. lia.
Qed.

(** C3. The tokenizer scans a line once with one inside-quotes flag, and the
    two example lines are split as specified: a, then b,c in quotes, then
    d gives the fields a, b,c and d; a, then b, a doubled quote and c in
    quotes, then d gives a, b-quote-c and d. A doubled quote, however, joins
    a quote to the field in either state of the flag, not only inside
    quotes: the empty quoted field between a and b comes out as a field that
    holds one quote character, where the specified scan gives an empty
    field. *)
Theorem parseCsvLine_doubled_quote :
  let line1 := utf16 "a," ++ [QUOTE] ++ utf16 "b,c" ++ [QUOTE] ++ utf16 ",d" in
  let line2 := utf16 "a," ++ [QUOTE] ++ utf16 "b" ++ [QUOTE; QUOTE] ++
               utf16 "c" ++ [QUOTE] ++ utf16 ",d" in
  let line3 := utf16 "a," ++ [QUOTE; QUOTE] ++ utf16 ",b" in
  parseCsvLine line1 = [utf16 "a"; utf16 "b,c"; utf16 "d"] /\
  parseCsvLine line2 = [utf16 "a"; utf16 "b" ++ [QUOTE] ++ utf16 "c"; utf16 "d"] /\
  specParseCsvLine line1 = parseCsvLine line1 /\
  specParseCsvLine line2 = parseCsvLine line2 /\
  (forall rest st,
      scanLine (QUOTE :: QUOTE :: rest) st = scanLine rest (emitQuote st)) /\
  (forall st,
      current (emitQuote st) = current st ++ [QUOTE] /\
      insideQuotes (emitQuote st) = insideQuotes st) /\
  parseCsvLine line3 = [utf16 "a"; [QUOTE]; utf16 "b"] /\
  specParseCsvLine line3 = [utf16 "a"; []; utf16 "b"].
Proof.
  repeat split; reflexivity.
Qed.

(** ** Type classification *)

Lemma lowerUnit_cases (c : N) :
  ((65 <= c)%N /\ (c <= 90)%N /\ lowerUnit c = [(c + 32)%N]) \/
  (c = 8490%N /\ lowerUnit c = [107%N]) \/
  (c = 304%N /\ lowerUnit c = [105%N; 775%N]) \/
  (lowerUnit c = [c] /\ ~ ((65 <= c)%N /\ (c <= 90)%N)).
Proof.
  unfold lowerUnit.
  destruct (N.leb_spec 65 c), (N.leb_spec c 90); cbn [andb];
    try (left; repeat split; assumption);
    destruct (N.eqb_spec c 8490); try (right; left; now split);
    destruct (N.eqb_spec c 304); try (right; right; left; now split);
    right; right; right; (split; [reflexivity | lia]).
Qed.

(** The code units of the five keywords are their own lower case, none of
    them is the letter k or the combining dot, and no keyword ends in the
    letter i: the two characters outside A to Z that lower-case to
    something with an ASCII letter cannot help to write a keyword. *)
Lemma buyWords_plain :
  Forall (fun word =>
            word <> [] /\
            Forall (fun l => lowerUnit l = [l] /\ l <> 107%N /\ l <> 775%N) word /\
            last word 0%N <> 105%N)
         buyWords.
Proof.
  unfold buyWords.
  repeat (constructor;
          [split; [discriminate|];
           split; [repeat (constructor; [repeat split; discriminate|]);
                   constructor
                  | discriminate]|]).
  constructor.
Qed.

Lemma toLowerCase_app (a b : jsstring) :
  toLowerCase (a ++ b) = toLowerCase a ++ toLowerCase b.
Proof. apply flat_map_app. Qed.

Lemma toLowerCase_spells (w word : jsstring) :
  spells w word ->
  Forall (fun l => lowerUnit l = [l] /\ l <> 107%N /\ l <> 775%N) word ->
  toLowerCase w = word.
Proof.
  induction 1 as [|c l w word Hc Hw IH]; intros Hword; [reflexivity|].
  inversion Hword as [|? ? (Hl & _) Hrest]; subst.
  change (toLowerCase (c :: w)) with (lowerUnit c ++ toLowerCase w).
  rewrite (IH Hrest).
  destruct Hc as [-> | (H1 & H2 & ->)].
  - now rewrite Hl.
  - destruct (lowerUnit_cases c) as [(_ & _ & ->) | [(-> & _) | [(-> & _) | (_ & Hn)]]];
      try reflexivity; try (now elim Hn); lia.
Qed.

(** A keyword at the head of a lower-cased cell is spelled at the head of
    the cell. *)
Lemma spelled_prefix (word : jsstring) :
  Forall (fun l => lowerUnit l = [l] /\ l <> 107%N /\ l <> 775%N) word ->
  last word 0%N <> 105%N ->
  forall r post,
    toLowerCase r = word ++ post ->
    exists w rest, r = w ++ rest /\ spells w word.
Proof.
  induction word as [|l word IH]; intros Hword Hlast r post Hr.
  - exists [], r. split; [reflexivity | constructor].
  - inversion Hword as [|? ? (_ & Hk & Hdot) Hrest]; subst.
    destruct r as [|c r]; [discriminate Hr|].
    change (toLowerCase (c :: r)) with (lowerUnit c ++ toLowerCase r) in Hr.
    assert (Hlast' : word <> [] -> last word 0%N <> 105%N)
      by (destruct word; [congruence | intros _; exact Hlast]).
    assert (Hnext : toLowerCase r = word ++ post ->
                    (c = l \/ ((65 <= c)%N /\ (c <= 90)%N /\ l = (c + 32)%N)) ->
                    exists w rest, c :: r = w ++ rest /\ spells w (l :: word)).
    { intros Hr' Hc. destruct word as [|l' word'].
      - exists [c], r. split; [reflexivity|]. constructor; [exact Hc | constructor].
      - destruct (IH Hrest (Hlast' ltac:(discriminate)) r post Hr')
          as (w & rest & -> & Hw).
        exists (c :: w), rest. split; [reflexivity|]. now constructor. }
    destruct (lowerUnit_cases c)
      as [(H1 & H2 & Hc) | [(-> & Hc) | [(-> & Hc) | (Hc & _)]]];
      rewrite Hc in Hr; cbn [app] in Hr.
    + injection Hr as <- Hr. apply Hnext; [exact Hr | right; auto].
    + injection Hr as <- Hr. now elim Hk.
    + injection Hr as <- Hr. destruct word as [|l' word'].
      * now elim Hlast.
      * inversion Hrest as [|? ? (_ & _ & Hdot') _]; subst.
        injection Hr as <- _. now elim Hdot'.
    + injection Hr as <- Hr. apply Hnext; [exact Hr | now left].
Qed.

(** A keyword inside a lower-cased cell is spelled inside the cell. *)
Lemma spelled_inside (word : jsstring) :
  word <> [] ->
  Forall (fun l => lowerUnit l = [l] /\ l <> 107%N /\ l <> 775%N) word ->
  last word 0%N <> 105%N ->
  forall r pre post,
    toLowerCase r = pre ++ word ++ post ->
    exists pre' w post', r = pre' ++ w ++ post' /\ spells w word.
Proof.
  intros Hne Hword Hlast.
  induction r as [|c r IH]; intros pre post Hr.
  - destruct pre, word; try discriminate Hr. now elim Hne.
  - destruct pre as [|p pre].
    + destruct (spelled_prefix word Hword Hlast (c :: r) post Hr)
        as (w & rest & Heq & Hw).
      exists [], w, rest. now split.
    + assert (Hlater : forall pre2, toLowerCase r = pre2 ++ word ++ post ->
                exists pre' w post', c :: r = pre' ++ w ++ post' /\ spells w word).
      { intros pre2 Hr'. destruct (IH pre2 post Hr') as (pre' & w & post' & -> & Hw).
        exists (c :: pre'), w, post'. now split. }
      change (toLowerCase (c :: r)) with (lowerUnit c ++ toLowerCase r) in Hr.
      destruct (lowerUnit_cases c)
        as [(_ & _ & Hc) | [(_ & Hc) | [(_ & Hc) | (Hc & _)]]];
        rewrite Hc in Hr; cbn [app] in Hr; injection Hr as _ Hr;
        try (now apply (Hlater pre)).
      destruct pre as [|p2 pre].
      * destruct word as [|l word]; [now elim Hne|].
        inversion Hword as [|? ? (_ & _ & Hdot) _]; subst.
        injection Hr as <- _. now elim Hdot.
      * injection Hr as _ Hr. now apply (Hlater pre).
Qed.

(** C5. For every type cell, the classification lower-cases the cell and
    answers buy exactly when the result contains one of the five keywords as
    a substring, and sell otherwise; the Korean word for buying is buy, SELL
    is sell, and a missing, empty or unrecognized cell is sell. Read on the
    cell itself: the answer is buy exactly when the cell contains one of
    the keywords written in any mix of capital and small letters, so BUY,
    Deposit and Bid are buy. *)
Theorem toTradeType_spec :
  (forall raw : option jsstring,
      let value := toLowerCase (match raw with Some r => r | None => [] end) in
      (toTradeType raw = buy <->
         exists word pre post,
           In word [utf16 "매수"; utf16 "bid"; utf16 "buy"; utf16 "입금"; utf16 "deposit"]
           /\ value = pre ++ word ++ post) /\
      (toTradeType raw = sell <-> toTradeType raw <> buy)) /\
  toTradeType (Some (utf16 "매수")) = buy /\
  toTradeType (Some (utf16 "SELL")) = sell /\
  toTradeType (Some []) = sell /\
  toTradeType None = sell /\
  toTradeType (Some (utf16 "transfer")) = sell /\
  (forall raw : option jsstring,
      toTradeType raw = buy <->
      exists word pre w post,
        In word [utf16 "매수"; utf16 "bid"; utf16 "buy"; utf16 "입금"; utf16 "deposit"]
        /\ match raw with Some r => r | None => [] end = pre ++ w ++ post
        /\ spells w word) /\
  toTradeType (Some (utf16 "BUY")) = buy /\
  toTradeType (Some (utf16 "Deposit")) = buy /\
  toTradeType (Some (utf16 "Bid")) = buy /\
  toTradeType (Some (utf16 "Market bUy 2")) = buy /\
  toTradeType (Some (utf16 "Sell")) = sell.
Proof.
  assert (Hiff : forall raw : option jsstring,
            toTradeType raw = buy <->
            exists word pre post,
              In word buyWords /\
              toLowerCase (match raw with Some r => r | None => [] end) =
                pre ++ word ++ post).
  { intros raw. unfold toTradeType. cbv zeta.
    set (value := toLowerCase _).
    destruct (existsb (fun word => includes value word) buyWords) eqn:E.
    - split; [intros _ | reflexivity].
      apply existsb_exists in E. destruct E as (word & Hin & Hinc).
      apply includes_substring in Hinc. destruct Hinc as (pre & post & Hv).
      exists word, pre, post. split; assumption.
    - split; [discriminate|].
      intros (word & pre & post & Hin & Hv).
      assert (Hex : existsb (fun word => includes value word) buyWords = true).
      { apply existsb_exists. exists word. split; [exact Hin|].
        apply includes_substring. eauto. }
      congruence. }
  split; [|repeat split; try reflexivity].
  - intros raw value. split; [apply Hiff|].
    destruct (toTradeType raw); split; congruence.
  - rewrite Hiff. intros (word & pre & post & Hin & Hv).
    pose proof buyWords_plain as Hplain. rewrite Forall_forall in Hplain.
    destruct (Hplain word Hin) as (Hne & Hword & Hlast).
    destruct (spelled_inside word Hne Hword Hlast _ pre post Hv)
      as (pre' & w & post' & Hr & Hw).
    exists word, pre', w, post'. repeat split; assumption.
  - intros (word & pre & w & post & Hin & Hr & Hw). apply Hiff.
    pose proof buyWords_plain as Hplain. rewrite Forall_forall in Hplain.
    destruct (Hplain word Hin) as (_ & Hword & _).
    exists word, (toLowerCase pre), (toLowerCase post).
    split; [exact Hin|].
    now rewrite Hr, !toLowerCase_app, (toLowerCase_spells w word Hw Hword).
Qed.

(** ** Rows of a CSV file *)

Section Rows.

Variable h : Host.

(** One turn of the import loop, in closed form: a row is kept exactly when
    its amount cell and its resolved price are finite. *)
Lemma rowToTrade_eq (cols : Columns) (line : jsstring) (n : nat) :
  rowToTrade h cols line n =
  let a := amountCell cols line in
  let p := resolvePrice (priceCell cols line) (totalCell cols line) a in
  if isFinite a && isFinite p then
    Some {| id := randomUUID h n;
            date := normalizeDate h (getCell (parseCsvLine line) (dateIdx cols));
            type := toTradeType (getCell (parseCsvLine line) (typeIdx cols));
            amount := a;
            price := p;
            amountInput := numberToString h a;
            priceInput := numberToString h p |}
  else None.
Proof.
  unfold rowToTrade. rewrite parseCsvLine_nonempty. cbv zeta.
  fold (amountCell cols line) (priceCell cols line) (totalCell cols line).
  destruct (isFinite (amountCell cols line)) eqn:Ha; cbn [negb orb andb].
  - rewrite Ha.
    destruct (isFinite (resolvePrice _ _ _)) eqn:Hp; cbn [negb orb andb];
      reflexivity.
  - reflexivity.
Qed.

Lemma rowToTrade_Some (cols : Columns) (line : jsstring) (n : nat) (t : Trade) :
  rowToTrade h cols line n = Some t ->
  id t = randomUUID h n /\
  amount t = amountCell cols line /\
  price t = resolvePrice (priceCell cols line) (totalCell cols line)
                         (amountCell cols line) /\
  isFinite (amount t) = true /\ isFinite (price t) = true.
Proof.
  rewrite rowToTrade_eq. cbv zeta.
  destruct (isFinite (amountCell cols line)) eqn:Ha;
    cbn [andb]; [|discriminate].
  destruct (isFinite (resolvePrice _ _ _)) eqn:Hp; [|discriminate].
  intros [= <-]. cbn [id amount price]. auto.
Qed.

(** Whether a row is kept, and what it resolves to, does not depend on the
    identifier it would get. *)
Lemma rowToTrade_data (cols : Columns) (line : jsstring) (n m : nat) :
  option_map tradeData (rowToTrade h cols line n) =
  option_map tradeData (rowToTrade h cols line m).
Proof.
  rewrite !rowToTrade_eq. cbv zeta.
  destruct (isFinite _ && isFinite _); reflexivity.
Qed.

(** C4. For every data row, the price is the price cell when that parses to
    a finite value above 0; failing that, when the total cell is finite and
    the amount is finite and above 0, the price is total / amount; failing
    both, the row is rejected. In particular a row with quantity 0 under a
    header without a price column is rejected, as under the header
    Fill Total,Quantity,Side. *)
Theorem price_resolution (cols : Columns) (line : jsstring) (n : nat) :
  let a := amountCell cols line in
  let p := priceCell cols line in
  let tot := totalCell cols line in
  let priceUsable := isFinite p && (0 <? p)%float in
  let totalUsable := isFinite tot && isFinite a && (0 <? a)%float in
  (priceUsable = true ->
     (forall t, rowToTrade h cols line n = Some t -> price t = p) /\
     (isFinite a = true -> exists t, rowToTrade h cols line n = Some t)) /\
  (priceUsable = false -> totalUsable = true ->
     (forall t, rowToTrade h cols line n = Some t -> price t = (tot / a)%float) /\
     (isFinite (tot / a)%float = true ->
        exists t, rowToTrade h cols line n = Some t)) /\
  (priceUsable = false -> totalUsable = false ->
     rowToTrade h cols line n = None) /\
  (priceIdx cols = (-1)%Z -> (a =? 0)%float = true ->
     rowToTrade h cols line n = None) /\
  (columnsOf fillTotalHeader =
     {| dateIdx := -1; typeIdx := 2; amountIdx := 1; priceIdx := -1;
        totalIdx := 0 |} /\
   rowToTrade h (columnsOf fillTotalHeader) (utf16 "1000,0,buy") n = None /\
   option_map tradeData
     (rowToTrade h (columnsOf fillTotalHeader) (utf16 "1000,4,buy") n)
   = Some (slice0 10 (nowISOString h), buy, 4%float, 250%float)).
Proof.
  intros a p tot priceUsable totalUsable.
  assert (Hprice : forall t, rowToTrade h cols line n = Some t ->
                             price t = resolvePrice p tot a)
    by (intros t Ht; destruct (rowToTrade_Some _ _ _ _ Ht) as (_ & _ & Hp & _);
        exact Hp).
  pose proof (rowToTrade_eq cols line n) as Heq. cbv zeta in Heq.
  fold a p tot in Heq.
  unfold resolvePrice in Hprice, Heq. fold priceUsable totalUsable in Hprice, Heq.
  split; [|split; [|split; [|split]]].
  - intros Hu. rewrite Hu in Hprice, Heq. split; [exact Hprice|].
    intros Ha. rewrite Heq, Ha.
    apply andb_true_iff in Hu. destruct Hu as [-> _]. simpl. eauto.
  - intros Hu Ht. rewrite Hu, Ht in Hprice, Heq. split; [exact Hprice|].
    intros Hq. rewrite Heq, Hq.
    unfold totalUsable in Ht. rewrite !andb_true_iff in Ht.
    destruct Ht as [[_ ->] _]. simpl. eauto.
  - intros Hu Ht. rewrite Heq, Hu, Ht.
    now rewrite andb_false_r.
  - intros Hidx Hzero. rewrite Heq.
    assert (Hp : p = nan) by (unfold p, priceCell; rewrite Hidx; reflexivity).
    unfold priceUsable, totalUsable. rewrite Hp.
    rewrite (eqb_zero_not_positive _ Hzero). simpl.
    rewrite !andb_false_r. reflexivity.
  - split; [reflexivity|]. split.
    + rewrite rowToTrade_eq. reflexivity.
    + rewrite rowToTrade_eq. reflexivity.
Qed.

End Rows.

(** ** The import loop *)

Section ImportLoop.

Variable h : Host.

Lemma parseRows_app (cols : Columns) (rows : list jsstring) :
  forall n acc,
    fst (parseRows h cols rows n acc) = acc ++ fst (parseRows h cols rows n []).
Proof.
  induction rows as [|line rows IH]; intros n acc; simpl.
  - now rewrite app_nil_r.
  - destruct (rowToTrade h cols line n) as [t|].
    + rewrite (IH (S n) (acc ++ [t])), (IH (S n) [t]), <- app_assoc. reflexivity.
    + apply IH.
Qed.

Lemma parseRows_count (cols : Columns) (rows : list jsstring) :
  forall n acc,
    snd (parseRows h cols rows n acc) = snd (parseRows h cols rows n []).
Proof.
  induction rows as [|line rows IH]; intros n acc; simpl.
  - reflexivity.
  - destruct (rowToTrade h cols line n) as [t|].
    + rewrite (IH (S n) (acc ++ [t])), (IH (S n) [t]). reflexivity.
    + apply IH.
Qed.

(** The rows that are kept get the identifiers [n], [n + 1], ... in turn. *)
Lemma parseRows_ids (cols : Columns) (rows : list jsstring) :
  forall n,
    exists k,
      snd (parseRows h cols rows n []) = n + k /\
      map id (fst (parseRows h cols rows n [])) = map (randomUUID h) (seq n k).
Proof.
  induction rows as [|line rows IH]; intros n; simpl.
  - exists 0. split; [lia | reflexivity].
  - destruct (rowToTrade h cols line n) as [t|] eqn:Ht.
    + destruct (IH (S n)) as (k & Hk & Hids).
      exists (S k). rewrite parseRows_count, parseRows_app, Hk. split; [lia|].
      rewrite map_app, Hids. simpl.
      destruct (rowToTrade_Some h _ _ _ _ Ht) as (-> & _). reflexivity.
    + apply IH.
Qed.

(** The rows that are kept come out in the order of the file. *)
Lemma parseRows_data (cols : Columns) (rows : list jsstring) :
  forall n,
    map tradeData (fst (parseRows h cols rows n [])) = rowsData h cols rows.
Proof.
  induction rows as [|line rows IH]; intros n; simpl.
  - reflexivity.
  - pose proof (rowToTrade_data h cols line n 0) as Hd.
    destruct (rowToTrade h cols line n) as [t|],
             (rowToTrade h cols line 0) as [t0|];
      cbn [option_map] in Hd; try discriminate.
    + rewrite parseRows_app, map_app, IH. cbn [map app].
      assert (Hd' : tradeData t = tradeData t0) by congruence.
      rewrite Hd'. reflexivity.
    + apply IH.
Qed.

Lemma parseRows_finite (cols : Columns) (rows : list jsstring) :
  forall n, Forall (fun t => finiteTrade t = true) (fst (parseRows h cols rows n [])).
Proof.
  induction rows as [|line rows IH]; intros n; simpl.
  - constructor.
  - destruct (rowToTrade h cols line n) as [t|] eqn:Ht.
    + rewrite parseRows_app. apply Forall_app. split; [|apply IH].
      constructor; [|constructor].
      destruct (rowToTrade_Some h _ _ _ _ Ht) as (_ & _ & _ & Ha & Hp).
      unfold finiteTrade. now rewrite Ha, Hp.
    + apply IH.
Qed.

Lemma linesOf_length (text : jsstring) :
  List.length (linesOf text) =
  List.length (filter (fun l => truthy (trim l)) (splitLines text)).
Proof.
  unfold linesOf. induction (splitLines text) as [|l ls IH]; simpl.
  - reflexivity.
  - destruct (truthy (trim l)); simpl; now rewrite IH.
Qed.

Lemma parseCsvToTrades_ids (text : jsstring) (n : nat) :
  exists k,
    snd (parseCsvToTrades h text n) = n + k /\
    map id (fst (parseCsvToTrades h text n)) = map (randomUUID h) (seq n k).
Proof.
  unfold parseCsvToTrades. cbv zeta.
  destruct (Nat.ltb _ 2).
  - exists 0. split; [simpl; lia | reflexivity].
  - apply parseRows_ids.
Qed.

Lemma parseCsvToTrades_finite (text : jsstring) (n : nat) :
  Forall (fun t => finiteTrade t = true) (fst (parseCsvToTrades h text n)).
Proof.
  unfold parseCsvToTrades. cbv zeta.
  destruct (Nat.ltb _ 2); [constructor | apply parseRows_finite].
Qed.

Lemma handleFileLoaded_trades (content : jsstring) (s : AppState) :
  trades (handleFileLoaded h content s) =
  trades s ++ fst (parseCsvToTrades h content (uuidsDrawn s)).
Proof.
  unfold handleFileLoaded.
  destruct (parseCsvToTrades h content (uuidsDrawn s)) as [imported n].
  destruct imported; simpl; [now rewrite app_nil_r | reflexivity].
Qed.

Lemma handleFileLoaded_drawn (content : jsstring) (s : AppState) :
  uuidsDrawn (handleFileLoaded h content s) =
  snd (parseCsvToTrades h content (uuidsDrawn s)).
Proof.
  unfold handleFileLoaded.
  destruct (parseCsvToTrades h content (uuidsDrawn s)) as [imported n].
  destruct imported; reflexivity.
Qed.

End ImportLoop.

(** ** The template *)

(** C2. The template that the download writes ends its lines with a
    backslash and the letter n instead of a line feed: it is one line long,
    so importing it yields no trade at all, where two are expected.
    The same three lines ended by line feeds import as specified:
    a buy of 1 at 500000 and a sell of 0.5 at 600000. *)
Theorem template_round_trip (h : Host) (n : nat) :
  List.length (linesOf templateCsv) = 1 /\
  parseCsvToTrades h templateCsv n = ([], n) /\
  map (fun t => (type t, amount t, price t))
      (fst (parseCsvToTrades h templateLines n))
  = [(buy, 1%float, 500000%float); (sell, 0.5%float, 600000%float)].
Proof.
  repeat split; vm_compute; reflexivity.
Qed.

(** ** Signs of the stored values *)

(** C7. Values below zero are stored as they are: typing -5 in the amount
    field or -3 in the price field of the seed row stores -5 and -3, a CSV
    row with amount -1 and price 100 is imported with amount -1, and a row
    with total -1000 and quantity 2 is imported with price -500. *)
Theorem negative_values_are_stored :
  let seed := randomUUID demoHost 0 in
  let s0 := initialState demoHost in
  let csv1 := utf16 "amount,price" ++ [LF] ++ utf16 "-1,100" in
  let csv2 := utf16 "total,quantity" ++ [LF] ++ utf16 "-1000,2" in
  map amount (trades (step demoHost s0 (AmountChange seed (utf16 "-5"))))
    = [(-5)%float] /\
  map price (trades (step demoHost s0 (PriceChange seed (utf16 "-3"))))
    = [(-3)%float] /\
  map (fun t => (amount t, price t))
      (trades (step demoHost s0 (FileLoaded csv1)))
    = [(0, 0); (-1, 100)]%float /\
  map (fun t => (amount t, price t))
      (trades (step demoHost s0 (FileLoaded csv2)))
    = [(0, 0); (2, -500)]%float /\
  (-5 <? 0)%float = true /\ (-3 <? 0)%float = true /\
  (-1 <? 0)%float = true /\ (-500 <? 0)%float = true.
Proof.
  repeat split; vm_compute; reflexivity.
Qed.

(** ** The states of the page *)

Section Page.

Variable h : Host.

Lemma run_invariant (P : AppState -> Prop) :
  P (initialState h) ->
  (forall s e, P s -> P (step h s e)) ->
  forall events, P (run h events).
Proof.
  intros Hinit Hstep events. unfold run.
  generalize (initialState h) Hinit.
  induction events as [|e events IH]; intros s Hs; simpl.
  - exact Hs.
  - apply IH, Hstep, Hs.
Qed.

Lemma handleAmountChange_finite (id0 value : jsstring) (prev : list Trade) :
  Forall (fun t => finiteTrade t = true) prev ->
  Forall (fun t => finiteTrade t = true) (handleAmountChange id0 value prev).
Proof.
  intros Hprev. unfold handleAmountChange. apply Forall_map.
  apply (Forall_impl _ (P := fun t => finiteTrade t = true)); [|exact Hprev].
  intros t Ht. destruct (negb (jsstring_eqb (id t) id0)); [exact Ht|].
  unfold finiteTrade in *. cbn [amount price].
  apply andb_true_iff in Ht. destruct Ht as [_ ->].
  destruct (isFinite (parseFloat value)) eqn:E; [rewrite E|]; reflexivity.
Qed.

Lemma handlePriceChange_finite (id0 value : jsstring) (prev : list Trade) :
  Forall (fun t => finiteTrade t = true) prev ->
  Forall (fun t => finiteTrade t = true) (handlePriceChange id0 value prev).
Proof.
  intros Hprev. unfold handlePriceChange. apply Forall_map.
  apply (Forall_impl _ (P := fun t => finiteTrade t = true)); [|exact Hprev].
  intros t Ht. destruct (negb (jsstring_eqb (id t) id0)); [exact Ht|].
  unfold finiteTrade in *. cbn [amount price].
  apply andb_true_iff in Ht. destruct Ht as [-> _].
  destruct (isFinite (parseFloat value)) eqn:E; [rewrite E|]; reflexivity.
Qed.

Lemma handleTradeChange_finite (id0 : jsstring) (field : TradeField)
    (prev : list Trade) :
  Forall (fun t => finiteTrade t = true) prev ->
  Forall (fun t => finiteTrade t = true) (handleTradeChange id0 field prev).
Proof.
  intros Hprev. unfold handleTradeChange. apply Forall_map.
  apply (Forall_impl _ (P := fun t => finiteTrade t = true)); [|exact Hprev].
  intros t Ht. destruct (jsstring_eqb (id t) id0); [|exact Ht].
  destruct field; exact Ht.
Qed.

Lemma handleDeleteTrade_finite (id0 : jsstring) (prev : list Trade) :
  Forall (fun t => finiteTrade t = true) prev ->
  Forall (fun t => finiteTrade t = true) (handleDeleteTrade id0 prev).
Proof.
  intros Hprev. unfold handleDeleteTrade.
  destruct (Nat.eqb _ 1); [exact Hprev|].
  apply Forall_forall. intros t Ht. apply filter_In in Ht.
  destruct Ht as [Ht _]. revert t Ht. apply Forall_forall, Hprev.
Qed.

Lemma step_finite (s : AppState) (e : Event) :
  Forall (fun t => finiteTrade t = true) (trades s) ->
  Forall (fun t => finiteTrade t = true) (trades (step h s e)).
Proof.
  intros Hs. destruct e; simpl.
  - apply Forall_app. split; [exact Hs|]. repeat constructor.
  - apply handleDeleteTrade_finite, Hs.
  - apply handleTradeChange_finite, Hs.
  - apply handleAmountChange_finite, Hs.
  - apply handlePriceChange_finite, Hs.
  - rewrite handleFileLoaded_trades. apply Forall_app.
    split; [exact Hs | apply parseCsvToTrades_finite].
Qed.

End Page.

(** ** Finite amounts and prices *)

Lemma edited_amount (id0 value : jsstring) (prev : list Trade) (t : Trade) :
  In t (handleAmountChange id0 value prev) -> id t = id0 ->
  amount t = if isFinite (parseFloat value) then parseFloat value else 0%float.
Proof.
  unfold handleAmountChange. intros Hin Hid.
  apply in_map_iff in Hin. destruct Hin as (t0 & <- & _).
  destruct (jsstring_eqb (id t0) id0) eqn:E; cbn [negb] in *.
  - reflexivity.
  - apply jsstring_eqb_eq in Hid. congruence.
Qed.

Lemma edited_price (id0 value : jsstring) (prev : list Trade) (t : Trade) :
  In t (handlePriceChange id0 value prev) -> id t = id0 ->
  price t = if isFinite (parseFloat value) then parseFloat value else 0%float.
Proof.
  unfold handlePriceChange. intros Hin Hid.
  apply in_map_iff in Hin. destruct Hin as (t0 & <- & _).
  destruct (jsstring_eqb (id t0) id0) eqn:E; cbn [negb] in *.
  - reflexivity.
  - apply jsstring_eqb_eq in Hid. congruence.
Qed.

(** C6. After any sequence of operations from the seed row (add, delete,
    date or type edit, amount or price edit, CSV import), every stored trade
    has a finite amount and a finite price. An amount or price edit whose
    text does not parse to a finite number stores 0 in the edited trade, and
    a CSV row whose amount or resolved price is not finite is skipped by the
    import loop. *)
Theorem stored_trades_are_finite (h : Host) :
  (forall events,
      Forall (fun t => isFinite (amount t) = true /\ isFinite (price t) = true)
             (trades (run h events))) /\
  (forall id0 value prev t,
      isFinite (parseFloat value) = false ->
      (In t (handleAmountChange id0 value prev) -> id t = id0 ->
       amount t = 0%float) /\
      (In t (handlePriceChange id0 value prev) -> id t = id0 ->
       price t = 0%float)) /\
  (forall cols line n rest parsedTrades,
      isFinite (amountCell cols line)
      && isFinite (resolvePrice (priceCell cols line) (totalCell cols line)
                                (amountCell cols line)) = false ->
      rowToTrade h cols line n = None /\
      parseRows h cols (line :: rest) n parsedTrades =
      parseRows h cols rest n parsedTrades).
Proof.
  split; [|split].
  - intros events.
    apply (Forall_impl _ (P := fun t => finiteTrade t = true)).
    + intros t Ht. now apply andb_true_iff in Ht.
    + apply (run_invariant h
               (fun s => Forall (fun t => finiteTrade t = true) (trades s))).
      * repeat constructor.
      * intros s e. apply step_finite.
  - intros id0 value prev t Hnan. split; intros Hin Hid.
    + rewrite (edited_amount _ _ _ _ Hin Hid), Hnan. reflexivity.
    + rewrite (edited_price _ _ _ _ Hin Hid), Hnan. reflexivity.
  - intros cols line n rest parsedTrades Hbad.
    assert (Hnone : rowToTrade h cols line n = None).
    { rewrite rowToTrade_eq. cbv zeta. rewrite Hbad. reflexivity. }
    split; [exact Hnone|].
    simpl. rewrite Hnone. reflexivity.
Qed.

(** ** At least one row *)

Section Identifiers.

Variable h : Host.

Hypothesis randomUUID_fresh :
  forall i j, randomUUID h i = randomUUID h j -> i = j.

Lemma map_id_handleTradeChange (id0 : jsstring) (field : TradeField)
    (prev : list Trade) :
  map id (handleTradeChange id0 field prev) = map id prev.
Proof.
  unfold handleTradeChange. rewrite map_map. apply map_ext.
  intros t. destruct (jsstring_eqb (id t) id0); [destruct field|]; reflexivity.
Qed.

Lemma map_id_handleAmountChange (id0 value : jsstring) (prev : list Trade) :
  map id (handleAmountChange id0 value prev) = map id prev.
Proof.
  unfold handleAmountChange. rewrite map_map. apply map_ext.
  intros t. destruct (negb (jsstring_eqb (id t) id0)); reflexivity.
Qed.

Lemma map_id_handlePriceChange (id0 value : jsstring) (prev : list Trade) :
  map id (handlePriceChange id0 value prev) = map id prev.
Proof.
  unfold handlePriceChange. rewrite map_map. apply map_ext.
  intros t. destruct (negb (jsstring_eqb (id t) id0)); reflexivity.
Qed.

(** Among trades with distinct identifiers, a deletion by identifier removes
    at most one. *)
Lemma filter_id_length (id0 : jsstring) (prev : list Trade) :
  NoDup (map id prev) ->
  List.length prev <=
  S (List.length (filter (fun t => negb (jsstring_eqb (id t) id0)) prev)).
Proof.
  induction prev as [|t prev IH]; simpl; intros Hnd.
  - lia.
  - inversion Hnd as [|x l Hnotin Hnd']; subst.
    destruct (jsstring_eqb (id t) id0) eqn:E; simpl.
    + apply jsstring_eqb_eq in E.
      rewrite forallb_filter_id; [lia|].
      apply forallb_forall. intros t' Hin.
      destruct (jsstring_eqb (id t') id0) eqn:E'; [|reflexivity].
      apply jsstring_eqb_eq in E'. exfalso. apply Hnotin.
      rewrite E, <- E'. now apply in_map.
    + specialize (IH Hnd'). lia.
Qed.

Lemma filter_map_id_NoDup (f : Trade -> bool) (prev : list Trade) :
  NoDup (map id prev) -> NoDup (map id (filter f prev)).
Proof.
  induction prev as [|t prev IH]; simpl; intros Hnd; [constructor|].
  inversion Hnd as [|x l Hnotin Hnd']; subst.
  destruct (f t); simpl; [|now apply IH].
  constructor; [|now apply IH].
  intros Hin. apply Hnotin. apply in_map_iff in Hin.
  destruct Hin as (t' & Hid & Hin). apply filter_In in Hin.
  rewrite <- Hid. apply in_map, Hin.
Qed.

Lemma fresh_ids_NoDup (k : nat) :
  forall n, NoDup (map (randomUUID h) (seq n k)).
Proof.
  induction k as [|k IH]; intros n; simpl; constructor; [|apply IH].
  rewrite in_map_iff. intros (i & Hi & Hin).
  apply randomUUID_fresh in Hi. apply in_seq in Hin. lia.
Qed.

(** Appending trades that carry the next [k] identifiers keeps a state
    well formed. *)
Lemma append_wellFormed (s : AppState) (new : list Trade) (k : nat)
    (message : option jsstring) :
  wellFormed h s ->
  map id new = map (randomUUID h) (seq (uuidsDrawn s) k) ->
  wellFormed h {| trades := trades s ++ new;
                  importMessage := message;
                  uuidsDrawn := uuidsDrawn s + k |}.
Proof.
  intros (Hnd & Hlen & Hids) Hnew. unfold wellFormed. cbn [trades uuidsDrawn].
  rewrite Forall_forall in Hids.
  split; [|split].
  - rewrite map_app, Hnew. apply NoDup_app.
    + exact Hnd.
    + apply fresh_ids_NoDup.
    + intros a Hold Hin.
      apply in_map_iff in Hold. destruct Hold as (t & <- & Ht).
      destruct (Hids t Ht) as (j & Hj & Hid).
      apply in_map_iff in Hin. destruct Hin as (i & Hi & Hin).
      rewrite Hid in Hi. apply randomUUID_fresh in Hi.
      apply in_seq in Hin. lia.
  - rewrite length_app. lia.
  - apply Forall_forall. intros t Ht. apply in_app_or in Ht.
    destruct Ht as [Ht|Ht].
    + destruct (Hids t Ht) as (j & Hj & Hid). exists j. split; [lia|exact Hid].
    + assert (Hin : In (id t) (map (randomUUID h) (seq (uuidsDrawn s) k)))
        by (rewrite <- Hnew; now apply in_map).
      apply in_map_iff in Hin. destruct Hin as (i & Hi & Hin).
      apply in_seq in Hin. exists i. split; [lia|now symmetry].
Qed.

(** Rewriting the trades without touching identifiers or their number
    keeps a state well formed. *)
Lemma setTrades_wellFormed (f : list Trade -> list Trade) (s : AppState) :
  wellFormed h s ->
  map id (f (trades s)) = map id (trades s) ->
  wellFormed h (setTrades f s).
Proof.
  intros (Hnd & Hlen & Hids) Hf. unfold wellFormed, setTrades.
  cbn [trades uuidsDrawn].
  assert (Hl : List.length (f (trades s)) = List.length (trades s))
    by (rewrite <- (length_map id), Hf; apply length_map).
  split; [now rewrite Hf | split; [lia|]].
  rewrite Forall_forall in *. intros t Ht.
  assert (Hin : In (id t) (map id (trades s)))
    by (rewrite <- Hf; now apply in_map).
  apply in_map_iff in Hin. destruct Hin as (t0 & Hid & Ht0).
  rewrite <- Hid. apply Hids, Ht0.
Qed.

Lemma delete_wellFormed (id0 : jsstring) (s : AppState) :
  wellFormed h s -> wellFormed h (setTrades (handleDeleteTrade id0) s).
Proof.
  intros (Hnd & Hlen & Hids). unfold wellFormed, setTrades, handleDeleteTrade.
  cbn [trades uuidsDrawn].
  destruct (Nat.eqb (List.length (trades s)) 1) eqn:E; [now repeat split|].
  apply Nat.eqb_neq in E.
  split; [|split].
  - apply filter_map_id_NoDup, Hnd.
  - pose proof (filter_id_length id0 (trades s) Hnd). lia.
  - rewrite Forall_forall in *. intros t Ht. apply filter_In in Ht.
    apply Hids, Ht.
Qed.

Lemma step_wellFormed (s : AppState) (e : Event) :
  wellFormed h s -> wellFormed h (step h s e).
Proof.
  intros Hs. destruct e; cbn [step].
  - unfold handleAddTrade. rewrite <- Nat.add_1_r.
    apply append_wellFormed; [exact Hs | reflexivity].
  - apply delete_wellFormed, Hs.
  - apply setTrades_wellFormed; [exact Hs | apply map_id_handleTradeChange].
  - apply setTrades_wellFormed; [exact Hs | apply map_id_handleAmountChange].
  - apply setTrades_wellFormed; [exact Hs | apply map_id_handlePriceChange].
  - destruct (parseCsvToTrades_ids h content (uuidsDrawn s)) as (k & Hk & Hids).
    pose proof (append_wellFormed s _ k
                  (importMessage (handleFileLoaded h content s)) Hs Hids) as Hw.
    rewrite <- Hk, <- handleFileLoaded_drawn, <- handleFileLoaded_trades in Hw.
    destruct (handleFileLoaded h content s). exact Hw.
Qed.

Lemma initialState_wellFormed : wellFormed h (initialState h).
Proof.
  unfold wellFormed, initialState. cbn [trades uuidsDrawn map List.length].
  split; [|split].
  - constructor; [intros []|constructor].
  - lia.
  - constructor; [|constructor]. exists 0. split; [lia|reflexivity].
Qed.

(** C8. Deleting from a list of exactly one trade returns the list
    unchanged; and, as long as [crypto.randomUUID] never gives the same
    identifier twice, the list holds at least one trade after any sequence
    of add, edit, import and delete operations from the initial state. *)
Theorem list_never_empty :
  (forall id0 prev,
      List.length prev = 1 -> handleDeleteTrade id0 prev = prev) /\
  (forall events, 1 <= List.length (trades (run h events))).
Proof.
  split.
  - intros id0 prev Hlen. unfold handleDeleteTrade. now rewrite Hlen.
  - intros events.
    apply (run_invariant h (wellFormed h) initialState_wellFormed
             step_wellFormed events).
Qed.

End Identifiers.

(** Identifiers have to be distinct for that: on a host that hands out the
    same identifier again, adding a row and deleting it empties the list. *)
Lemma repeated_identifier_empties_the_list :
  let host := {| randomUUID := fun _ => utf16 "same";
                 nowISOString := nowISOString demoHost;
                 dateISOString := dateISOString demoHost;
                 numberToString := numberToString demoHost |} in
  trades (run host [AddTrade; DeleteTrade (utf16 "same")]) = [].
Proof. reflexivity. Qed.

Lemma demoHost_fresh :
  forall i j, randomUUID demoHost i = randomUUID demoHost j -> i = j.
Proof.
  intros i j H. apply (f_equal (@List.length N)) in H.
  cbn [randomUUID demoHost] in H. rewrite !repeat_length in H. lia.
Qed.

Lemma list_never_empty_witness :
  (forall id0 prev,
      List.length prev = 1 -> handleDeleteTrade id0 prev = prev) /\
  (forall events, 1 <= List.length (trades (run demoHost events))).
Proof. exact (list_never_empty demoHost demoHost_fresh). Defined.

(** ** Importing a file *)

(** C9. A text with fewer than two non-blank lines, the empty text or a
    header alone for instance, parses to the empty list of trades (the
    parser is a total function: there is no error to raise); and when an
    import resolves no row, the message about unreadable rows is set and
    the trade list is the one before. *)
Theorem short_csv_imports_nothing (h : Host) :
  (forall text n,
      List.length (filter (fun l => truthy (trim l)) (splitLines text)) < 2 ->
      parseCsvToTrades h text n = ([], n)) /\
  (forall n, parseCsvToTrades h [] n = ([], n)) /\
  (forall n,
      parseCsvToTrades h (utf16 "date,type,amount,price" ++ [LF]) n = ([], n)) /\
  (forall content s,
      fst (parseCsvToTrades h content (uuidsDrawn s)) = [] ->
      trades (handleFileLoaded h content s) = trades s /\
      importMessage (handleFileLoaded h content s) = Some noRowsMessage).
Proof.
  split; [|split; [|split]].
  - intros text n Hlen. unfold parseCsvToTrades. cbv zeta.
    rewrite linesOf_length.
    now rewrite (proj2 (Nat.ltb_lt _ _) Hlen).
  - reflexivity.
  - reflexivity.
  - intros content s Hnone. unfold handleFileLoaded.
    destruct (parseCsvToTrades h content (uuidsDrawn s)) as [imported n].
    cbn [fst] in Hnone. subst imported. split; reflexivity.
Qed.

(** C10. When an import resolves at least one row, the new trade list is
    the previous list followed by the imported trades: the previous trades
    are its first elements, unchanged and in their order, and the imported
    trades are the rows that were kept, in the order of the file. *)
Theorem import_appends (h : Host) (content : jsstring) (s : AppState) :
  let imported := fst (parseCsvToTrades h content (uuidsDrawn s)) in
  imported <> [] ->
  trades (handleFileLoaded h content s) = trades s ++ imported /\
  firstn (List.length (trades s)) (trades (handleFileLoaded h content s))
    = trades s /\
  map tradeData imported
    = rowsData h (columnsOfText content) (skipn 1 (linesOf content)) /\
  importMessage (handleFileLoaded h content s)
    = Some (addedMessage (List.length imported)).
Proof.
  intros imported Hsome.
  assert (Htrades : trades (handleFileLoaded h content s) = trades s ++ imported)
    by apply handleFileLoaded_trades.
  split; [exact Htrades|]. split; [|split].
  - rewrite Htrades, firstn_app, Nat.sub_diag, firstn_all. simpl.
    apply app_nil_r.
  - subst imported. unfold parseCsvToTrades in *. cbv zeta in *.
    destruct (Nat.ltb _ 2); [now elim Hsome|].
    apply parseRows_data.
  - unfold handleFileLoaded. subst imported.
    destruct (parseCsvToTrades h content (uuidsDrawn s)) as [imported n].
    cbn [fst] in *. destruct imported; [now elim Hsome|reflexivity].
Qed.

Lemma import_appends_witness :
  let s := initialState demoHost in
  let imported := fst (parseCsvToTrades demoHost templateLines (uuidsDrawn s)) in
  imported <> [] /\
  trades (handleFileLoaded demoHost templateLines s) = trades s ++ imported.
Proof.
  cbv zeta. split.
  - vm_compute. discriminate.
  - apply (import_appends demoHost templateLines (initialState demoHost)).
    vm_compute. discriminate.
Defined.


(** * Further properties of the code *)

(** ** The tokenizer, in general *)

Lemma scanLine_not_quote (c : N) (rest : jsstring) (st : LineScan) :
  N.eqb c QUOTE = false ->
  scanLine (c :: rest) st = scanLine rest (scanChar c st).
Proof.
  intros Hc. simpl. rewrite Hc. destruct rest; reflexivity.
Qed.

Lemma scanLine_single_quote (rest : jsstring) (st : LineScan) :
  hd_error rest <> Some QUOTE ->
  scanLine (QUOTE :: rest) st = scanLine rest (scanChar QUOTE st).
Proof.
  intros Hhd. destruct rest as [|next rest']; [reflexivity|].
  cbn [scanLine]. destruct (N.eqb next QUOTE) eqn:E.
  - apply N.eqb_eq in E. subst. now elim Hhd.
  - now rewrite andb_false_r.
Qed.

(** A run of characters that joins the field: no quote in it, and no comma
    unless the scan is inside quotes. *)
Lemma scanLine_run (f rest : jsstring) :
  forall st,
    hasNo QUOTE f ->
    (insideQuotes st = true \/ hasNo COMMA f) ->
    scanLine (f ++ rest) st =
    scanLine rest {| result := result st; current := current st ++ f;
                     insideQuotes := insideQuotes st |}.
Proof.
  unfold hasNo. induction f as [|c f IH]; intros st Hq Hc.
  - simpl. rewrite app_nil_r. destruct st; reflexivity.
  - assert (Hcq : N.eqb c QUOTE = false)
      by (apply N.eqb_neq; intros ->; apply Hq; now left).
    cbn [app]. rewrite scanLine_not_quote by exact Hcq.
    assert (Hstep : scanChar c st =
                    {| result := result st; current := current st ++ [c];
                       insideQuotes := insideQuotes st |}).
    { unfold scanChar. rewrite Hcq.
      destruct Hc as [Hin|Hno].
      - rewrite Hin, andb_false_r. reflexivity.
      - assert (N.eqb c COMMA = false) as ->
          by (apply N.eqb_neq; intros ->; apply Hno; now left).
        reflexivity. }
    rewrite Hstep, IH.
    + cbn [result current insideQuotes]. now rewrite <- app_assoc.
    + intros Hin. apply Hq. now right.
    + cbn [insideQuotes]. destruct Hc as [Hin|Hno]; [now left|right].
      intros Hin. apply Hno. now right.
Qed.

Lemma scanLine_unquoted (line : jsstring) :
  forall st,
    hasNo QUOTE line -> insideQuotes st = false ->
    result (scanLine line st) ++ [trim (current (scanLine line st))] =
    result st ++ map trim (splitCommas line (current st)).
Proof.
  unfold hasNo. induction line as [|c line IH]; intros st Hq Hout.
  - reflexivity.
  - assert (Hcq : N.eqb c QUOTE = false)
      by (apply N.eqb_neq; intros ->; apply Hq; now left).
    assert (Hq' : ~ In QUOTE line) by (intros Hin; apply Hq; now right).
    rewrite scanLine_not_quote by exact Hcq.
    unfold scanChar. rewrite Hcq, Hout. cbn [negb splitCommas].
    rewrite andb_true_r. destruct (N.eqb c COMMA).
    + rewrite IH by (exact Hq' || reflexivity). cbn [result current map].
      now rewrite <- app_assoc.
    + now rewrite IH by (exact Hq' || reflexivity).
Qed.

Lemma countCommas_cons (c : N) (s : jsstring) :
  countCommas (c :: s) = Nat.b2n (N.eqb c COMMA) + countCommas s.
Proof.
  unfold countCommas. cbn [filter]. destruct (N.eqb c COMMA); reflexivity.
Qed.

Lemma splitCommas_length (s : jsstring) :
  forall field, List.length (splitCommas s field) = S (countCommas s).
Proof.
  induction s as [|c s IH]; intros field.
  - reflexivity.
  - rewrite countCommas_cons. cbn [splitCommas].
    destruct (N.eqb c COMMA); cbn [List.length Nat.b2n]; now rewrite IH.
Qed.

Lemma scanChar_count (c : N) (st : LineScan) :
  List.length (result st) <= List.length (result (scanChar c st)) /\
  List.length (result (scanChar c st)) <=
    List.length (result st) + Nat.b2n (N.eqb c COMMA).
Proof.
  unfold scanChar. destruct (N.eqb c QUOTE); cbn [result]; [lia|].
  destruct (N.eqb c COMMA); cbn [andb Nat.b2n]; [|cbn [result]; lia].
  destruct (negb (insideQuotes st)); cbn [result];
    [rewrite length_app; cbn [List.length]|]; lia.
Qed.

Lemma scanLine_cons2 (c next : N) (rest : jsstring) (st : LineScan) :
  scanLine (c :: next :: rest) st =
  if N.eqb c QUOTE && N.eqb next QUOTE
  then scanLine rest (emitQuote st)
  else scanLine (next :: rest) (scanChar c st).
Proof. reflexivity. Qed.

(** Field counts of the scan, on any line. *)
Lemma scanLine_count (n : nat) :
  forall line st,
    List.length line <= n ->
    List.length (result st) <= List.length (result (scanLine line st)) /\
    List.length (result (scanLine line st)) <=
      List.length (result st) + countCommas line.
Proof.
  induction n as [|n IH]; intros line st Hlen.
  - destruct line; [cbn; lia | cbn in Hlen; lia].
  - destruct line as [|c rest]; [cbn; lia|].
    cbn [List.length] in Hlen. rewrite countCommas_cons.
    pose proof (scanChar_count c st) as [Hlo1 Hhi1].
    destruct rest as [|next rest'].
    + cbn [scanLine]. change (countCommas []) with 0. lia.
    + rewrite scanLine_cons2.
      destruct (N.eqb c QUOTE && N.eqb next QUOTE) eqn:E.
      * destruct (IH rest' (emitQuote st)) as [Hlo Hhi];
          [cbn [List.length] in Hlen; lia|].
        cbn [emitQuote result] in Hlo, Hhi.
        rewrite countCommas_cons. lia.
      * destruct (IH (next :: rest') (scanChar c st)) as [Hlo Hhi]; [lia|].
        lia.
Qed.

Lemma parseCsvLine_plain (line : jsstring) :
  hasNo QUOTE line -> parseCsvLine line = map trim (splitCommas line []).
Proof.
  intros Hq. unfold parseCsvLine. cbv zeta.
  now rewrite scanLine_unquoted by (exact Hq || reflexivity).
Qed.

(** X1. On a line without quotes the tokenizer is a split on commas followed
    by a trim of each piece. On any line it gives at least one field and at
    most one more than the line has commas, with equality when the line has
    no quote. *)
Theorem parseCsvLine_fields (line : jsstring) :
  (hasNo QUOTE line -> parseCsvLine line = map trim (splitCommas line [])) /\
  1 <= List.length (parseCsvLine line) <= 1 + countCommas line /\
  (hasNo QUOTE line -> List.length (parseCsvLine line) = 1 + countCommas line).
Proof.
  split; [apply parseCsvLine_plain|]. split.
  - unfold parseCsvLine. cbv zeta. rewrite length_app. simpl.
    destruct (scanLine_count (List.length line) line
                {| result := []; current := []; insideQuotes := false |}
                (le_n _)) as [_ Hhi].
    cbn [result List.length] in Hhi. lia.
  - intros Hq.
    rewrite (parseCsvLine_plain line Hq), length_map, splitCommas_length.
    reflexivity.
Qed.

Lemma parseCsvLine_fields_witness :
  hasNo QUOTE (utf16 "a, b ,c") /\
  parseCsvLine (utf16 "a, b ,c") = [utf16 "a"; utf16 "b"; utf16 "c"].
Proof.
  assert (Hq : hasNo QUOTE (utf16 "a, b ,c")).
  { unfold hasNo. vm_compute. intuition discriminate. }
  split; [exact Hq|].
  exact (proj1 (parseCsvLine_fields (utf16 "a, b ,c")) Hq).
Defined.

Lemma splitCommas_run (f rest : jsstring) :
  forall field,
    hasNo COMMA f ->
    splitCommas (f ++ rest) field = splitCommas rest (field ++ f).
Proof.
  unfold hasNo. induction f as [|c f IH]; intros field Hno.
  - now rewrite app_nil_r.
  - cbn [app splitCommas].
    assert (N.eqb c COMMA = false) as ->
      by (apply N.eqb_neq; intros ->; apply Hno; now left).
    rewrite IH by (intros Hin; apply Hno; now right).
    now rewrite <- app_assoc.
Qed.

Lemma splitCommas_join (fields : list jsstring) :
  forall f field,
    Forall (hasNo COMMA) (f :: fields) ->
    splitCommas (joinCommas (f :: fields)) field = (field ++ f) :: fields.
Proof.
  induction fields as [|g fields IH]; intros f field Hall.
  - cbn [joinCommas]. rewrite <- (app_nil_r f) at 1.
    rewrite splitCommas_run by (now inversion Hall). reflexivity.
  - inversion Hall as [|? ? Hf Hrest]; subst.
    change (joinCommas (f :: g :: fields))
      with (f ++ COMMA :: joinCommas (g :: fields)).
    rewrite splitCommas_run by exact Hf.
    cbn [splitCommas]. rewrite N.eqb_refl.
    now rewrite IH by exact Hrest.
Qed.

Lemma joinCommas_no_quote (fields : list jsstring) :
  Forall (hasNo QUOTE) fields -> hasNo QUOTE (joinCommas fields).
Proof.
  unfold hasNo. induction fields as [|f fields IH]; intros Hall.
  - intros [].
  - inversion Hall as [|? ? Hf Hrest]; subst.
    destruct fields as [|g fields]; [exact Hf|].
    change (joinCommas (f :: g :: fields))
      with (f ++ COMMA :: joinCommas (g :: fields)).
    intros Hin. apply in_app_or in Hin. destruct Hin as [Hin|[Hin|Hin]].
    + now apply Hf.
    + discriminate Hin.
    + now apply IH.
Qed.

(** X2. Round trip of plain fields: fields that hold neither a comma nor a
    quote, written with commas in between, are read back by the tokenizer,
    each one trimmed. *)
Theorem parseCsvLine_joinCommas (fields : list jsstring) :
  fields <> [] ->
  Forall (fun f => hasNo COMMA f /\ hasNo QUOTE f) fields ->
  parseCsvLine (joinCommas fields) = map trim fields.
Proof.
  intros Hne Hall.
  assert (Hc : Forall (hasNo COMMA) fields)
    by (apply (Forall_impl _ (P := fun f => hasNo COMMA f /\ hasNo QUOTE f));
        [tauto | exact Hall]).
  assert (Hq : Forall (hasNo QUOTE) fields)
    by (apply (Forall_impl _ (P := fun f => hasNo COMMA f /\ hasNo QUOTE f));
        [tauto | exact Hall]).
  rewrite parseCsvLine_plain by (apply joinCommas_no_quote, Hq).
  destruct fields as [|f fields]; [now elim Hne|].
  now rewrite splitCommas_join by exact Hc.
Qed.

Lemma parseCsvLine_joinCommas_witness :
  parseCsvLine (joinCommas [utf16 "2025-01-01"; utf16 " buy"; utf16 "1 "])
  = [utf16 "2025-01-01"; utf16 "buy"; utf16 "1"].
Proof.
  apply (parseCsvLine_joinCommas [utf16 "2025-01-01"; utf16 " buy"; utf16 "1 "]).
  - discriminate.
  - repeat constructor; unfold hasNo; vm_compute; intuition discriminate.
Defined.

Lemma scanLine_quoted (f rest : jsstring) (st : LineScan) :
  f <> [] -> hasNo QUOTE f -> hd_error rest <> Some QUOTE ->
  insideQuotes st = false ->
  scanLine (quoted f ++ rest) st =
  scanLine rest {| result := result st; current := current st ++ f;
                   insideQuotes := false |}.
Proof.
  intros Hne Hq Hrest Hout. unfold quoted.
  change ((QUOTE :: f ++ [QUOTE]) ++ rest) with (QUOTE :: (f ++ [QUOTE]) ++ rest).
  rewrite <- app_assoc. cbn [app].
  rewrite scanLine_single_quote.
  - rewrite scanLine_run.
    + rewrite scanLine_single_quote by exact Hrest.
      unfold scanChar. rewrite N.eqb_refl. cbn [result current insideQuotes].
      rewrite Hout. reflexivity.
    + exact Hq.
    + left. unfold scanChar. rewrite N.eqb_refl. cbn [insideQuotes].
      now rewrite Hout.
  - destruct f as [|c f]; [now elim Hne|]. cbn [app hd_error].
    intros [= ->]. apply Hq. now left.
Qed.

Lemma scanLine_quoted_fields (fields : list jsstring) :
  forall f st,
    Forall (fun f => f <> [] /\ hasNo QUOTE f) (f :: fields) ->
    insideQuotes st = false ->
    result (scanLine (joinCommas (map quoted (f :: fields))) st) ++
      [trim (current (scanLine (joinCommas (map quoted (f :: fields))) st))]
    = result st ++ trim (current st ++ f) :: map trim fields.
Proof.
  induction fields as [|g fields IH]; intros f st Hall Hout;
    inversion Hall as [|? ? [Hne Hq] Hrest]; subst.
  - cbn [map joinCommas]. rewrite <- (app_nil_r (quoted f)).
    rewrite scanLine_quoted by (assumption || discriminate). reflexivity.
  - change (joinCommas (map quoted (f :: g :: fields)))
      with (quoted f ++ COMMA :: joinCommas (map quoted (g :: fields))).
    rewrite scanLine_quoted by (assumption || discriminate).
    rewrite scanLine_not_quote by reflexivity.
    unfold scanChar at 1 2. change (N.eqb COMMA QUOTE) with false.
    rewrite N.eqb_refl. cbn [insideQuotes result current negb andb].
    rewrite IH by (exact Hrest || reflexivity).
    cbn [result current app map]. now rewrite <- app_assoc.
Qed.

(** X3. Round trip of quoted fields: fields that are not empty and hold no
    quote, each written between quotes with commas in between, are read back
    by the tokenizer, each one trimmed; a comma inside a field stays in the
    field. *)
Theorem parseCsvLine_quoted_fields (fields : list jsstring) :
  fields <> [] ->
  Forall (fun f => f <> [] /\ hasNo QUOTE f) fields ->
  parseCsvLine (joinCommas (map quoted fields)) = map trim fields.
Proof.
  intros Hne Hall. destruct fields as [|f fields]; [now elim Hne|].
  unfold parseCsvLine. cbv zeta.
  now rewrite scanLine_quoted_fields by (exact Hall || reflexivity).
Qed.

Lemma parseCsvLine_quoted_fields_witness :
  parseCsvLine (joinCommas (map quoted [utf16 "1,000"; utf16 "buy"]))
  = [utf16 "1,000"; utf16 "buy"].
Proof.
  apply (parseCsvLine_quoted_fields [utf16 "1,000"; utf16 "buy"]).
  - discriminate.
  - repeat constructor; try discriminate; unfold hasNo; vm_compute;
      intuition discriminate.
Defined.

(** ** Trimming *)

Lemma trimStart_head (s : jsstring) (c : N) :
  hd_error (trimStart s) = Some c -> isWhiteSpace c = false.
Proof.
  induction s as [|x s IH]; cbn [trimStart].
  - discriminate.
  - destruct (isWhiteSpace x) eqn:E; [exact IH|].
    cbn [hd_error]. intros [= <-]. exact E.
Qed.

Lemma trimStart_fixed (s : jsstring) :
  (forall c, hd_error s = Some c -> isWhiteSpace c = false) ->
  trimStart s = s.
Proof.
  destruct s as [|x s]; intros H; [reflexivity|].
  cbn [trimStart]. now rewrite (H x eq_refl).
Qed.

(** Trimming the start of a string that ends in a character that is not
    white space leaves that last character in place. *)
Lemma trimStart_snoc (s : jsstring) (c : N) :
  isWhiteSpace c = false -> exists s', trimStart (s ++ [c]) = s' ++ [c].
Proof.
  intros Hc. induction s as [|x s IH]; cbn [app trimStart].
  - rewrite Hc. exists []. reflexivity.
  - destruct (isWhiteSpace x); [exact IH|]. exists (x :: s). reflexivity.
Qed.

Lemma trimEnd_head (s : jsstring) :
  (forall c, hd_error s = Some c -> isWhiteSpace c = false) ->
  forall c, hd_error (trimEnd s) = Some c -> isWhiteSpace c = false.
Proof.
  unfold trimEnd. destruct s as [|x s]; intros H c.
  - discriminate.
  - pose proof (H x eq_refl) as Hx. cbn [rev].
    destruct (trimStart_snoc (rev s) x Hx) as (s' & ->).
    rewrite rev_app_distr. cbn [rev app hd_error]. now intros [= <-].
Qed.

Lemma trim_noEdgeSpace (s : jsstring) : noEdgeSpace (trim s).
Proof.
  unfold noEdgeSpace, trim. split.
  - apply trimEnd_head, trimStart_head.
  - unfold trimEnd. rewrite rev_involutive. apply trimStart_head.
Qed.

Lemma noEdgeSpace_trim (s : jsstring) : noEdgeSpace s -> trim s = s.
Proof.
  intros [Hhd Hlast]. unfold trim, trimEnd.
  rewrite (trimStart_fixed s Hhd), (trimStart_fixed (rev s) Hlast).
  apply rev_involutive.
Qed.

Lemma trim_idempotent (s : jsstring) : trim (trim s) = trim s.
Proof. apply noEdgeSpace_trim, trim_noEdgeSpace. Qed.

Lemma scanLine_preserves (Q : LineScan -> Prop) :
  (forall c st, Q st -> Q (scanChar c st)) ->
  (forall st, Q st -> Q (emitQuote st)) ->
  forall n line st, List.length line <= n -> Q st -> Q (scanLine line st).
Proof.
  intros Hchar Hquote. induction n as [|n IH]; intros line st Hlen Hst.
  - destruct line; [exact Hst | cbn in Hlen; lia].
  - destruct line as [|c [|next rest]]; [exact Hst | now apply Hchar |].
    rewrite scanLine_cons2. cbn [List.length] in Hlen.
    destruct (N.eqb c QUOTE && N.eqb next QUOTE).
    + apply IH; [lia | now apply Hquote].
    + apply IH; [cbn [List.length]; lia | now apply Hchar].
Qed.

(** X4. Every field the tokenizer returns is trimmed: it neither starts nor
    ends with white space, quoted or not, and trimming it again changes
    nothing. *)
Theorem parseCsvLine_trimmed (line : jsstring) :
  Forall (fun field => noEdgeSpace field /\ trim field = field)
         (parseCsvLine line).
Proof.
  assert (Htrim : forall s, noEdgeSpace (trim s) /\ trim (trim s) = trim s)
    by (intros s; split; [apply trim_noEdgeSpace | apply trim_idempotent]).
  unfold parseCsvLine. cbv zeta. apply Forall_app. split.
  - apply (scanLine_preserves
             (fun st => Forall (fun field => noEdgeSpace field /\ trim field = field)
                               (result st)))
      with (n := List.length line).
    + intros c st Hst. unfold scanChar.
      destruct (N.eqb c QUOTE); [exact Hst|].
      destruct (N.eqb c COMMA && negb (insideQuotes st)); [|exact Hst].
      cbn [result]. apply Forall_app. split; [exact Hst|].
      constructor; [apply Htrim | constructor].
    + intros st Hst. exact Hst.
    + apply le_n.
    + constructor.
  - constructor; [apply Htrim | constructor].
Qed.

(** ** Line endings *)

Lemma splitLinesFrom_plain (c : N) (rest current : jsstring) :
  N.eqb c LF = false -> N.eqb c CR = false ->
  splitLinesFrom (c :: rest) current = splitLinesFrom rest (current ++ [c]).
Proof.
  intros Hlf Hcr. cbn [splitLinesFrom]. rewrite Hlf, Hcr.
  destruct rest; reflexivity.
Qed.

Lemma splitLinesFrom_withCRLF (text : jsstring) :
  forall current,
    hasNo CR text ->
    splitLinesFrom (withCRLF text) current = splitLinesFrom text current.
Proof.
  unfold hasNo. induction text as [|c text IH]; intros current Hno.
  - reflexivity.
  - assert (Hcr : N.eqb c CR = false)
      by (apply N.eqb_neq; intros ->; apply Hno; now left).
    assert (Hno' : ~ In CR text) by (intros Hin; apply Hno; now right).
    unfold withCRLF. cbn [flat_map]. fold (withCRLF text).
    destruct (N.eqb c LF) eqn:Hlf.
    + apply N.eqb_eq in Hlf. subst c. cbn [app].
      change (splitLinesFrom (CR :: LF :: withCRLF text) current)
        with (current :: splitLinesFrom (withCRLF text) []).
      change (splitLinesFrom (LF :: text) current)
        with (current :: splitLinesFrom text []).
      now rewrite IH.
    + cbn [app]. rewrite !splitLinesFrom_plain by assumption.
      now apply IH.
Qed.

Lemma trimStart_snoc_space (s : jsstring) (c : N) :
  isWhiteSpace c = true ->
  (trimStart (s ++ [c]) = [] /\ trimStart s = []) \/
  trimStart (s ++ [c]) = trimStart s ++ [c].
Proof.
  intros Hc. induction s as [|x s IH]; cbn [app trimStart].
  - rewrite Hc. now left.
  - destruct (isWhiteSpace x); [exact IH | now right].
Qed.

Lemma trim_snoc_space (s : jsstring) (c : N) :
  isWhiteSpace c = true -> trim (s ++ [c]) = trim s.
Proof.
  intros Hc. unfold trim.
  destruct (trimStart_snoc_space s c Hc) as [[-> ->] | ->]; [reflexivity|].
  unfold trimEnd. rewrite rev_app_distr. cbn [rev app trimStart].
  now rewrite Hc.
Qed.

(** With carriage returns already in the text, the lines of the two
    readings differ at most by a carriage return at the end, which the trim
    removes. *)
Lemma splitLinesFrom_withCRLF_trim (n : nat) :
  forall text current,
    List.length text <= n ->
    map trim (splitLinesFrom (withCRLF text) current) =
    map trim (splitLinesFrom text current).
Proof.
  induction n as [|n IH]; intros text current Hlen.
  - destruct text; [reflexivity | cbn in Hlen; lia].
  - destruct text as [|c text]; [reflexivity|]. cbn [List.length] in Hlen.
    unfold withCRLF. cbn [flat_map]. fold (withCRLF text).
    destruct (N.eqb c LF) eqn:Hlf.
    + apply N.eqb_eq in Hlf. subst c. cbn [app].
      change (splitLinesFrom (CR :: LF :: withCRLF text) current)
        with (current :: splitLinesFrom (withCRLF text) []).
      change (splitLinesFrom (LF :: text) current)
        with (current :: splitLinesFrom text []).
      cbn [map]. rewrite IH by lia. reflexivity.
    + cbn [app]. destruct (N.eqb c CR) eqn:Hcr.
      * apply N.eqb_eq in Hcr. subst c.
        destruct text as [|c' text']; [reflexivity|].
        unfold withCRLF. cbn [flat_map]. fold (withCRLF text').
        destruct (N.eqb c' LF) eqn:Hlf'.
        -- apply N.eqb_eq in Hlf'. subst c'. cbn [app].
           change (splitLinesFrom (CR :: CR :: LF :: withCRLF text') current)
             with ((current ++ [CR]) :: splitLinesFrom (withCRLF text') []).
           change (splitLinesFrom (CR :: LF :: text') current)
             with (current :: splitLinesFrom text' []).
           cbn [map]. rewrite trim_snoc_space by reflexivity.
           cbn [List.length] in Hlen. rewrite IH by lia. reflexivity.
        -- cbn [app].
           assert (Hl : forall rest,
                      splitLinesFrom (CR :: c' :: rest) current =
                      splitLinesFrom (c' :: rest) (current ++ [CR])).
           { intros rest. cbn [splitLinesFrom].
             change (N.eqb CR LF) with false. cbn iota.
             now rewrite Hlf', andb_false_r. }
           rewrite !Hl.
           specialize (IH (c' :: text') (current ++ [CR]) ltac:(lia)).
           unfold withCRLF in IH. cbn [flat_map] in IH.
           fold (withCRLF text') in IH. rewrite Hlf' in IH. exact IH.
      * rewrite !splitLinesFrom_plain by assumption. apply IH. lia.
Qed.

(** X5. Line endings: whatever the text, writing each of its line feeds as
    a carriage return followed by a line feed gives the same non-blank
    trimmed lines and imports the same trades; and when the text has no
    carriage return, the split itself gives the same lines. *)
Theorem crlf_imports_the_same (h : Host) (text : jsstring) (n : nat) :
  linesOf (withCRLF text) = linesOf text /\
  parseCsvToTrades h (withCRLF text) n = parseCsvToTrades h text n /\
  (hasNo CR text -> splitLines (withCRLF text) = splitLines text).
Proof.
  assert (Hlines : linesOf (withCRLF text) = linesOf text).
  { unfold linesOf, splitLines.
    now rewrite (splitLinesFrom_withCRLF_trim (List.length text) text [] (le_n _)). }
  split; [exact Hlines|]. split.
  - unfold parseCsvToTrades. now rewrite Hlines.
  - intros Hno. apply splitLinesFrom_withCRLF, Hno.
Qed.

(** ** Columns and cells *)

Lemma findIndexFrom_spec {A : Type} (p : A -> bool) (l : list A) :
  forall i,
    (findIndexFrom p l i = (-1)%Z /\ Forall (fun x => p x = false) l) \/
    (exists k x,
        findIndexFrom p l i = (i + Z.of_nat k)%Z /\
        nth_error l k = Some x /\ p x = true /\
        Forall (fun y => p y = false) (firstn k l)).
Proof.
  induction l as [|x l IH]; intros i; cbn [findIndexFrom].
  - left. split; [reflexivity | constructor].
  - destruct (p x) eqn:E.
    + right. exists 0, x. cbn. repeat split; trivial; lia.
    + destruct (IH (i + 1)%Z) as [[-> Hall] | (k & y & -> & Hnth & Hy & Hbefore)].
      * left. split; [reflexivity | now constructor].
      * right. exists (S k), y. cbn [nth_error firstn].
        repeat split; trivial; [lia | now constructor].
Qed.

(** X6. Column lookup: [getColumnIndex] answers -1 exactly when no header
    cell contains a candidate word, and otherwise the position of the first
    cell that does, a position inside the header; [getCell] is undefined
    exactly for a negative position or one past the end of the row, and is
    the cell at that position otherwise. *)
Theorem column_lookup (header candidates cells : list jsstring) (idx : Z) :
  let i := getColumnIndex header candidates in
  ((i = (-1)%Z /\ Forall (fun col => matchesAny candidates col = false) header) \/
   (exists k col,
       i = Z.of_nat k /\ k < List.length header /\
       nth_error header k = Some col /\ matchesAny candidates col = true /\
       Forall (fun c => matchesAny candidates c = false) (firstn k header))) /\
  (getCell cells idx = None <->
     (idx < 0)%Z \/ (Z.of_nat (List.length cells) <= idx)%Z) /\
  ((0 <= idx)%Z -> getCell cells idx = nth_error cells (Z.to_nat idx)).
Proof.
  intros i. split; [|split].
  - unfold i, getColumnIndex. fold (matchesAny candidates).
    destruct (findIndexFrom_spec (matchesAny candidates) header 0)
      as [[Hi Hall] | (k & col & Hi & Hnth & Hcol & Hbefore)].
    + left. now split.
    + right. exists k, col. repeat split; trivial.
      apply nth_error_Some. congruence.
  - unfold getCell.
    destruct (Z.leb 0 idx) eqn:Hlo; destruct (Z.ltb idx _) eqn:Hhi;
      cbn [andb]; try apply Z.leb_le in Hlo; try apply Z.leb_gt in Hlo;
      try apply Z.ltb_lt in Hhi; try apply Z.ltb_ge in Hhi.
    + rewrite nth_error_None. lia.
    + split; [lia | reflexivity].
    + split; [lia | reflexivity].
    + split; [lia | reflexivity].
  - intros Hlo. unfold getCell.
    rewrite (proj2 (Z.leb_le 0 idx) Hlo). cbn [andb].
    destruct (Z.ltb idx _) eqn:Hhi; [reflexivity|].
    apply Z.ltb_ge in Hhi. symmetry. apply nth_error_None. lia.
Qed.

Section MoreRows.

Variable h : Host.

Lemma parseRows_none (cols : Columns) (rows : list jsstring) :
  (forall line n, rowToTrade h cols line n = None) ->
  forall n acc, parseRows h cols rows n acc = (acc, n).
Proof.
  intros Hnone. induction rows as [|line rows IH]; intros n acc; cbn [parseRows].
  - reflexivity.
  - rewrite Hnone. apply IH.
Qed.

(** X7. A file whose header has no amount column imports no trade, and so
    does a file whose header has neither a price column nor a total
    column, whatever its rows hold. *)
Theorem missing_columns_import_nothing (text : jsstring) (n : nat) :
  amountIdx (columnsOfText text) = (-1)%Z \/
  (priceIdx (columnsOfText text) = (-1)%Z /\
   totalIdx (columnsOfText text) = (-1)%Z) ->
  parseCsvToTrades h text n = ([], n).
Proof.
  intros Hmissing. unfold parseCsvToTrades. cbv zeta.
  destruct (Nat.ltb _ 2); [reflexivity|].
  fold (columnsOfText text). apply parseRows_none.
  intros line m. rewrite rowToTrade_eq. cbv zeta.
  destruct Hmissing as [Ha | [Hp Ht]].
  - unfold amountCell at 1. rewrite Ha. reflexivity.
  - unfold priceCell, totalCell. rewrite Hp, Ht.
    change (normalizeNumber (getCell (parseCsvLine line) (-1))) with nan.
    unfold resolvePrice. change (isFinite nan) with false. cbn [andb].
    now rewrite andb_false_r.
Qed.

Lemma parseRows_length (cols : Columns) (rows : list jsstring) :
  forall n,
    List.length (fst (parseRows h cols rows n [])) <= List.length rows /\
    snd (parseRows h cols rows n []) =
      n + List.length (fst (parseRows h cols rows n [])).
Proof.
  induction rows as [|line rows IH]; intros n; cbn [parseRows].
  - cbn. lia.
  - destruct (rowToTrade h cols line n) as [t|].
    + rewrite parseRows_count, parseRows_app, length_app.
      destruct (IH (S n)) as [Hle Hsnd]. rewrite Hsnd.
      cbn [app List.length]. lia.
    + destruct (IH n) as [Hle Hsnd]. cbn [List.length]. lia.
Qed.

Lemma import_count_aux (text : jsstring) (n : nat) :
  List.length (fst (parseCsvToTrades h text n)) <= List.length (linesOf text) - 1 /\
  snd (parseCsvToTrades h text n) =
    n + List.length (fst (parseCsvToTrades h text n)).
Proof.
  unfold parseCsvToTrades. cbv zeta.
  destruct (Nat.ltb _ 2) eqn:E; [cbn; lia|].
  destruct (parseRows_length (columnsOfText text) (skipn 1 (linesOf text)) n)
    as [Hle Hsnd].
  fold (columnsOfText text). rewrite length_skipn in Hle. split; assumption.
Qed.

End MoreRows.

Lemma missing_columns_import_nothing_witness :
  parseCsvToTrades demoHost
    (utf16 "date,type,price" ++ [LF] ++ utf16 "2025-01-01,buy,500000") 1
  = ([], 1).
Proof.
  apply (missing_columns_import_nothing demoHost). left. reflexivity.
Defined.

(** ** Rows addressed by identifier *)

Lemma map_other_ids (f : Trade -> Trade) (id0 : jsstring) (l : list Trade) :
  ~ In id0 (map id l) ->
  map (fun t => if negb (jsstring_eqb (id t) id0) then t else f t) l = l.
Proof.
  induction l as [|t l IH]; intros Hno; cbn [map]; [reflexivity|].
  destruct (jsstring_eqb (id t) id0) eqn:E.
  - apply jsstring_eqb_eq in E. exfalso. apply Hno. now left.
  - cbn [negb]. rewrite IH; [reflexivity|]. intros Hin. apply Hno. now right.
Qed.

Lemma map_one_id (f : Trade -> Trade) (l1 l2 : list Trade) (t0 : Trade) :
  NoDup (map id (l1 ++ t0 :: l2)) ->
  map (fun t => if negb (jsstring_eqb (id t) (id t0)) then t else f t)
      (l1 ++ t0 :: l2)
  = l1 ++ f t0 :: l2.
Proof.
  intros Hnd. rewrite map_app. cbn [map].
  rewrite jsstring_eqb_refl. cbn [negb].
  rewrite map_app in Hnd. cbn [map] in Hnd.
  pose proof (NoDup_remove_2 _ _ _ Hnd) as Hout.
  rewrite !map_other_ids; [reflexivity | |];
    intros Hin; apply Hout, in_or_app; [now right | now left].
Qed.

Lemma handleTradeChange_as_map (id0 : jsstring) (field : TradeField)
    (prev : list Trade) :
  handleTradeChange id0 field prev =
  map (fun t => if negb (jsstring_eqb (id t) id0) then t
                else match field with
                     | DateField value =>
                         {| id := id t; date := value; type := type t;
                            amount := amount t; price := price t;
                            amountInput := amountInput t;
                            priceInput := priceInput t |}
                     | TypeField value =>
                         {| id := id t; date := date t; type := value;
                            amount := amount t; price := price t;
                            amountInput := amountInput t;
                            priceInput := priceInput t |}
                     end) prev.
Proof.
  unfold handleTradeChange. apply map_ext. intros t.
  destruct (jsstring_eqb (id t) id0); reflexivity.
Qed.

(** X9. An edit addressed to an identifier that no row carries changes
    nothing; and in a list with distinct identifiers, an amount edit, a
    price edit or a date or type edit of a row changes that row alone, in
    place: the amount edit sets its amount and the text of its amount field,
    the price edit its price and the text of its price field, the other
    edits its date or its type, and nothing else. *)
Theorem edits_change_one_row (id0 value : jsstring) (field : TradeField)
    (prev l1 l2 : list Trade) (t0 : Trade) :
  (~ In id0 (map id prev) ->
     handleAmountChange id0 value prev = prev /\
     handlePriceChange id0 value prev = prev /\
     handleTradeChange id0 field prev = prev) /\
  (NoDup (map id (l1 ++ t0 :: l2)) ->
     handleAmountChange (id t0) value (l1 ++ t0 :: l2) =
       l1 ++ {| id := id t0; date := date t0; type := type t0;
                amount := if isFinite (parseFloat value)
                          then parseFloat value else 0%float;
                price := price t0;
                amountInput := value;
                priceInput := priceInput t0 |} :: l2 /\
     handlePriceChange (id t0) value (l1 ++ t0 :: l2) =
       l1 ++ {| id := id t0; date := date t0; type := type t0;
                amount := amount t0;
                price := if isFinite (parseFloat value)
                         then parseFloat value else 0%float;
                amountInput := amountInput t0;
                priceInput := value |} :: l2 /\
     handleTradeChange (id t0) field (l1 ++ t0 :: l2) =
       l1 ++ match field with
             | DateField v =>
                 {| id := id t0; date := v; type := type t0;
                    amount := amount t0; price := price t0;
                    amountInput := amountInput t0;
                    priceInput := priceInput t0 |}
             | TypeField v =>
                 {| id := id t0; date := date t0; type := v;
                    amount := amount t0; price := price t0;
                    amountInput := amountInput t0;
                    priceInput := priceInput t0 |}
             end :: l2).
Proof.
  split.
  - intros Hno. rewrite handleTradeChange_as_map.
    unfold handleAmountChange, handlePriceChange.
    rewrite !map_other_ids by exact Hno. auto.
  - intros Hnd. rewrite handleTradeChange_as_map.
    unfold handleAmountChange, handlePriceChange.
    rewrite !map_one_id by exact Hnd. auto.
Qed.

(** X10. Deleting by an identifier that no row carries changes nothing, and
    deleting twice is the same as deleting once. In a list of more than one
    row with distinct identifiers, deleting a row removes that row alone and
    keeps the others in their order. *)
Theorem delete_removes_one_row (id0 : jsstring) (prev l1 l2 : list Trade)
    (t0 : Trade) :
  (~ In id0 (map id prev) -> handleDeleteTrade id0 prev = prev) /\
  handleDeleteTrade id0 (handleDeleteTrade id0 prev) = handleDeleteTrade id0 prev /\
  (NoDup (map id (l1 ++ t0 :: l2)) -> l1 ++ l2 <> [] ->
     handleDeleteTrade (id t0) (l1 ++ t0 :: l2) = l1 ++ l2).
Proof.
  assert (Hkeep : forall l, ~ In id0 (map id l) ->
             filter (fun t => negb (jsstring_eqb (id t) id0)) l = l).
  { intros l Hno. apply forallb_filter_id, forallb_forall. intros t Hin.
    destruct (jsstring_eqb (id t) id0) eqn:E; [|reflexivity].
    apply jsstring_eqb_eq in E. exfalso. apply Hno. rewrite <- E.
    now apply in_map. }
  split; [|split].
  - intros Hno. unfold handleDeleteTrade.
    destruct (Nat.eqb _ 1); [reflexivity | now apply Hkeep].
  - unfold handleDeleteTrade.
    destruct (Nat.eqb (List.length prev) 1) eqn:E; [now rewrite E|].
    destruct (Nat.eqb (List.length (filter _ prev)) 1); [reflexivity|].
    apply Hkeep. intros Hin. apply in_map_iff in Hin.
    destruct Hin as (t & Hid & Hin). apply filter_In in Hin.
    destruct Hin as [_ Hneq]. rewrite <- Hid, jsstring_eqb_refl in Hneq.
    discriminate.
  - intros Hnd Hne. unfold handleDeleteTrade.
    assert (Hlen : Nat.eqb (List.length (l1 ++ t0 :: l2)) 1 = false).
    { apply Nat.eqb_neq. rewrite length_app. cbn [List.length].
      destruct l1, l2; cbn [List.length app] in *; try lia. now elim Hne. }
    rewrite Hlen, filter_app. cbn [filter].
    rewrite jsstring_eqb_refl. cbn [negb].
    rewrite map_app in Hnd. cbn [map] in Hnd.
    pose proof (NoDup_remove_2 _ _ _ Hnd) as Hout.
    assert (Hkeep' : forall l, ~ In (id t0) (map id l) ->
               filter (fun t => negb (jsstring_eqb (id t) (id t0))) l = l).
    { intros l Hno. apply forallb_filter_id, forallb_forall. intros t Hin.
      destruct (jsstring_eqb (id t) (id t0)) eqn:E; [|reflexivity].
      apply jsstring_eqb_eq in E. exfalso. apply Hno. rewrite <- E.
      now apply in_map. }
    rewrite !Hkeep'; [reflexivity | |];
      intros Hin; apply Hout, in_or_app; [now right | now left].
Qed.

Lemma edits_change_one_row_witness :
  let s0 := initialState demoHost in
  let two := trades (step demoHost s0 AddTrade) in
  NoDup (map id two) /\
  map (fun t => (amount t, amountInput t))
      (handleAmountChange (randomUUID demoHost 1) (utf16 "2.5") two)
  = [(0%float, []); (2.5%float, utf16 "2.5")].
Proof.
  cbv zeta.
  assert (Hnd : NoDup (map id ([createEmptyTrade demoHost 0] ++
                               createEmptyTrade demoHost 1 :: []))).
  { repeat constructor; vm_compute; intuition discriminate. }
  split; [exact Hnd|].
  pose proof (proj2 (edits_change_one_row [] (utf16 "2.5") (DateField [])
                       [] [createEmptyTrade demoHost 0] []
                       (createEmptyTrade demoHost 1)) Hnd) as [Hedit _].
  change (trades (step demoHost (initialState demoHost) AddTrade))
    with ([createEmptyTrade demoHost 0] ++ createEmptyTrade demoHost 1 :: []).
  change (randomUUID demoHost 1) with (id (createEmptyTrade demoHost 1)).
  rewrite Hedit. vm_compute. reflexivity.
Defined.

Lemma delete_removes_one_row_witness :
  let s0 := initialState demoHost in
  let two := trades (step demoHost s0 AddTrade) in
  NoDup (map id two) /\
  handleDeleteTrade (randomUUID demoHost 0) two = [createEmptyTrade demoHost 1].
Proof.
  cbv zeta.
  assert (Hnd : NoDup (map id ([] ++ createEmptyTrade demoHost 0 ::
                               [createEmptyTrade demoHost 1]))).
  { repeat constructor; vm_compute; intuition discriminate. }
  split; [exact Hnd|].
  apply (proj2 (proj2 (delete_removes_one_row [] [] []
                         [createEmptyTrade demoHost 1]
                         (createEmptyTrade demoHost 0))) Hnd).
  discriminate.
Defined.

(** ** Reachable states *)

(** X11. As long as [crypto.randomUUID] never gives the same identifier
    twice, the rows of the page carry pairwise distinct identifiers after
    any sequence of operations, each of them one of the identifiers drawn
    so far: an edit or a deletion addresses at most one row. *)
Theorem identifiers_stay_distinct (h : Host) (events : list Event) :
  (forall i j, randomUUID h i = randomUUID h j -> i = j) ->
  NoDup (map id (trades (run h events))) /\
  Forall (fun t => exists k,
              k < uuidsDrawn (run h events) /\ id t = randomUUID h k)
         (trades (run h events)).
Proof.
  intros Hfresh.
  destruct (run_invariant h (wellFormed h) (initialState_wellFormed h)
              (step_wellFormed h Hfresh) events) as (Hnd & _ & Hids).
  split; assumption.
Qed.

Lemma identifiers_stay_distinct_witness :
  NoDup (map id (trades (run demoHost
                           [AddTrade; FileLoaded templateLines; AddTrade]))).
Proof.
  exact (proj1 (identifiers_stay_distinct demoHost
                  [AddTrade; FileLoaded templateLines; AddTrade]
                  demoHost_fresh)).
Defined.



(** ** Rounding never reaches zero from above the smallest exponent *)

Section NonZero.

Variables prec emax : Z.

Hypothesis prec_positive : (0 < prec)%Z.

Lemma digits2_pos_upper (m : positive) :
  (Zpos m < 2 ^ Zpos (digits2_pos m))%Z.
Proof.
  induction m as [m IH|m IH|]; cbn [digits2_pos];
    rewrite ?Pos2Z.inj_succ, ?Z.pow_succ_r by lia; lia.
Qed.

Lemma digits2_pos_lower (m : positive) :
  (2 ^ (Zpos (digits2_pos m) - 1) <= Zpos m)%Z.
Proof.
  induction m as [m IH|m IH|]; cbn [digits2_pos];
    rewrite ?Pos2Z.inj_succ;
    try (replace (Z.succ (Zpos (digits2_pos m)) - 1)%Z
           with (Z.succ (Zpos (digits2_pos m) - 1))%Z by lia;
         rewrite Z.pow_succ_r by lia; lia).
  cbn. lia.
Qed.

Lemma shr_1_div2 (r : shr_record) :
  (0 <= shr_m r)%Z -> shr_m (shr_1 r) = (shr_m r / 2)%Z.
Proof.
  destruct r as [m r s]. cbn [shr_m]. intros Hm.
  destruct m as [|[p|p|]|p]; cbn [shr_1 shr_m]; try lia.
  - reflexivity.
  - rewrite Pos2Z.inj_xI. apply Z.div_unique with 1%Z; lia.
  - rewrite Pos2Z.inj_xO. apply Z.div_unique with 0%Z; lia.
  - reflexivity.
Qed.

Lemma pow2_xO (n : positive) :
  (2 ^ Zpos n~0 = 2 ^ Zpos n * 2 ^ Zpos n)%Z.
Proof.
  replace (Zpos n~0) with (Zpos n + Zpos n)%Z by lia.
  now rewrite Z.pow_add_r by lia.
Qed.

Lemma pow2_xI (n : positive) :
  (2 ^ Zpos n~1 = 2 * (2 ^ Zpos n * 2 ^ Zpos n))%Z.
Proof.
  replace (Zpos n~1) with (1 + (Zpos n + Zpos n))%Z by lia.
  now rewrite !Z.pow_add_r, Z.pow_1_r by lia.
Qed.

Lemma iter_shr_1_div (n : positive) :
  forall r,
    (0 <= shr_m r)%Z ->
    shr_m (iter_pos shr_1 n r) = (shr_m r / 2 ^ Zpos n)%Z.
Proof.
  assert (Hpos : forall k, (0 < 2 ^ Zpos k)%Z)
    by (intros k; apply Z.pow_pos_nonneg; lia).
  induction n as [n IH|n IH|]; intros r Hr; cbn [iter_pos].
  - rewrite IH by (apply iter_shr_1_nonneg, shr_1_nonneg, Hr).
    rewrite IH by (apply shr_1_nonneg, Hr).
    rewrite shr_1_div2 by exact Hr.
    pose proof (Hpos n).
    rewrite !Z.div_div by lia. now rewrite pow2_xI, Z.mul_assoc.
  - rewrite IH by (apply iter_shr_1_nonneg, Hr).
    rewrite IH by exact Hr.
    pose proof (Hpos n).
    rewrite Z.div_div by lia. now rewrite pow2_xO.
  - rewrite shr_1_div2 by exact Hr. reflexivity.
Qed.

(** One shift of the rounding keeps a positive mantissa positive, and the
    exponent at or above the smallest one. *)
Lemma shr_fexp_positive (m : positive) (e : Z) (l : location) :
  (SpecFloat.emin prec emax <= e)%Z ->
  (0 < shr_m (fst (shr_fexp prec emax (Zpos m) e l)))%Z /\
  (SpecFloat.emin prec emax <= snd (shr_fexp prec emax (Zpos m) e l))%Z.
Proof.
  intros He. unfold shr_fexp, shr.
  assert (H0 : shr_m (shr_record_of_loc (Zpos m) l) = Zpos m)
    by (destruct l as [|[]]; reflexivity).
  cbn [Zdigits2].
  destruct (fexp prec emax (Zpos (digits2_pos m) + e) - e)%Z as [|n|n] eqn:En;
    cbn [fst snd]; rewrite ?H0; try (split; lia).
  unfold fexp in En.
  assert (Hn : (Zpos n = Zpos (digits2_pos m) - prec)%Z) by lia.
  split; [|lia].
  rewrite iter_shr_1_div by (rewrite H0; lia). rewrite H0.
  apply Z.div_str_pos. split; [lia|].
  apply Z.le_trans with (2 ^ (Zpos (digits2_pos m) - 1))%Z;
    [|apply digits2_pos_lower].
  apply Z.pow_le_mono_r; lia.
Qed.

Lemma round_nearest_even_ge (m : Z) (l : location) :
  (m <= round_nearest_even m l)%Z.
Proof.
  destruct l as [|[]]; cbn [round_nearest_even]; try lia.
  destruct (Z.even m); lia.
Qed.

(** Rounding a positive mantissa at an exponent that is not below the
    smallest one gives a finite value that is not zero, or an infinity. *)
Lemma binary_round_aux_nonzero (s : bool) (m : positive) (e : Z) (l : location) :
  (SpecFloat.emin prec emax <= e)%Z ->
  match binary_round_aux prec emax s (Zpos m) e l with
  | S754_finite s' _ _ | S754_infinity s' => s' = s
  | _ => False
  end.
Proof.
  intros He. unfold binary_round_aux.
  destruct (shr_fexp_positive m e l He) as [H1 H1e].
  destruct (shr_fexp prec emax (Zpos m) e l) as [mrs' e']. cbn [fst snd] in *.
  pose proof (round_nearest_even_ge (shr_m mrs') (loc_of_shr_record mrs')) as Hge.
  destruct (round_nearest_even (shr_m mrs') (loc_of_shr_record mrs'))
    as [|m2|m2] eqn:Em2; try lia.
  destruct (shr_fexp_positive m2 e' loc_Exact H1e) as [H2 _].
  destruct (shr_fexp prec emax (Zpos m2) e' loc_Exact) as [mrs'' e''].
  cbn [fst] in H2.
  destruct (shr_m mrs''); try lia.
  destruct (e'' <=? emax - prec)%Z; reflexivity.
Qed.

Lemma binary_round_nonzero (s : bool) (m : positive) (e : Z) :
  (SpecFloat.emin prec emax <= e)%Z ->
  match binary_round prec emax s m e with
  | S754_finite s' _ _ | S754_infinity s' => s' = s
  | _ => False
  end.
Proof.
  intros He. unfold binary_round.
  destruct (shl_align m e (fexp prec emax (Zpos (digits2_pos m) + e)))
    as [mz ez] eqn:Ealign.
  apply binary_round_aux_nonzero.
  unfold shl_align in Ealign.
  destruct (fexp prec emax (Zpos (digits2_pos m) + e) - e)%Z eqn:Ed;
    injection Ealign as <- <-; try exact He.
  unfold fexp. lia.
Qed.

End NonZero.

(** ** What the totals depend on *)

Lemma sumGross_map (ts ts' : list Trade) :
  map (fun t => (amount t, price t)) ts = map (fun t => (amount t, price t)) ts' ->
  sumGross ts = sumGross ts'.
Proof.
  unfold sumGross. generalize 0%float.
  revert ts'. induction ts as [|t ts IH]; intros [|t' ts'] acc Hmap;
    try discriminate; [reflexivity|].
  cbn [map] in Hmap. injection Hmap as Ha Hp Hrest.
  cbn [fold_left]. rewrite Ha, Hp. now apply IH.
Qed.

Lemma totals_sums (ts : list Trade) :
  totalBuy (totals ts) = sumGross (filter isBuy ts) /\
  totalSell (totals ts) = sumGross (filter isSell ts).
Proof.
  unfold totals. rewrite fold_addGross. split; reflexivity.
Qed.

Lemma totals_from_sums (ts ts' : list Trade) :
  sumGross (filter isBuy ts) = sumGross (filter isBuy ts') ->
  sumGross (filter isSell ts) = sumGross (filter isSell ts') ->
  totals ts = totals ts'.
Proof.
  intros Hb Hs. unfold totals. rewrite !fold_addGross.
  fold (sumGross (filter isBuy ts)) (sumGross (filter isSell ts))
       (sumGross (filter isBuy ts')) (sumGross (filter isSell ts')).
  now rewrite Hb, Hs.
Qed.

Lemma filter_exclusive (f g : Trade -> bool) (ts : list Trade) :
  (forall t, g t = true -> f t = false) -> filter f (filter g ts) = [].
Proof.
  intros Hfg. induction ts as [|t ts IH]; [reflexivity|]. cbn [filter].
  destruct (g t) eqn:E; [|exact IH].
  cbn [filter]. now rewrite (Hfg t E).
Qed.

Lemma filter_filter_off (ts : list Trade) :
  filter isBuy (filter isSell ts) = [] /\ filter isSell (filter isBuy ts) = [].
Proof.
  split; apply filter_exclusive; intros t; unfold isBuy, isSell;
    destruct (type t); congruence.
Qed.

Lemma filter_map_same (f : Trade -> bool) (g : Trade -> Trade) (ts : list Trade) :
  (forall t, f (g t) = f t) -> filter f (map g ts) = map g (filter f ts).
Proof.
  intros Hfg. induction ts as [|t ts IH]; [reflexivity|]. cbn [map filter].
  rewrite Hfg. destruct (f t); cbn [map]; now rewrite IH.
Qed.

Lemma filter_idem (f : Trade -> bool) (ts : list Trade) :
  filter f (filter f ts) = filter f ts.
Proof.
  induction ts as [|t ts IH]; [reflexivity|]. cbn [filter].
  destruct (f t) eqn:E; cbn [filter]; rewrite ?E, IH; reflexivity.
Qed.

(** X13. The totals depend only on the amounts and prices of the buys, in
    their order, and on those of the sells, in their order: lists that agree
    on both have the same totals. So the totals do not change when the
    buys are moved before the sells, nor when a date is edited. *)
Theorem totals_depend_on_buys_and_sells (ts ts' : list Trade)
    (id0 value : jsstring) :
  (map (fun t => (amount t, price t)) (filter isBuy ts)
   = map (fun t => (amount t, price t)) (filter isBuy ts') ->
   map (fun t => (amount t, price t)) (filter isSell ts)
   = map (fun t => (amount t, price t)) (filter isSell ts') ->
   totals ts = totals ts') /\
  totals (filter isBuy ts ++ filter isSell ts) = totals ts /\
  totals (handleTradeChange id0 (DateField value) ts) = totals ts.
Proof.
  split; [|split].
  - intros Hb Hs. apply totals_from_sums; now apply sumGross_map.
  - destruct (filter_filter_off ts) as [H1 H2].
    apply totals_from_sums; rewrite filter_app, ?filter_idem, ?H1, ?H2,
      ?app_nil_r; reflexivity.
  - unfold handleTradeChange.
    set (g := fun trade : Trade => if jsstring_eqb (id trade) id0 then _ else trade).
    assert (Hb : forall t, isBuy (g t) = isBuy t)
      by (intros t; unfold g; destruct (jsstring_eqb (id t) id0); reflexivity).
    assert (Hs : forall t, isSell (g t) = isSell t)
      by (intros t; unfold g; destruct (jsstring_eqb (id t) id0); reflexivity).
    assert (Hd : forall t, (amount (g t), price (g t)) = (amount t, price t))
      by (intros t; unfold g; destruct (jsstring_eqb (id t) id0); reflexivity).
    apply totals_from_sums; apply sumGross_map;
      rewrite filter_map_same by assumption;
      rewrite map_map; apply map_ext; exact Hd.
Qed.

Lemma totals_depend_on_buys_and_sells_witness :
  let b := {| id := []; date := []; type := buy; amount := 1; price := 10;
              amountInput := []; priceInput := [] |} in
  let s := {| id := []; date := []; type := sell; amount := 1; price := 30;
              amountInput := []; priceInput := [] |} in
  totals [s; b; s] = totals [b; s; s].
Proof.
  cbv zeta.
  apply (totals_depend_on_buys_and_sells _ _ [] []); reflexivity.
Defined.

(** ** Signs of the totals *)

Lemma SFcompare_refl (x : spec_float) :
  x <> S754_nan -> SFcompare x x = Some Eq.
Proof.
  destruct x as [s|s| |s m e]; intros Hx; try reflexivity.
  - now destruct s.
  - now elim Hx.
  - cbn [SFcompare]. rewrite Z.compare_refl, Pos.compare_cont_refl.
    now destruct s.
Qed.

Lemma isPositive_spec (x : float) :
  isPositive (Prim2SF x) -> is_nan x = false /\ (0 <? x)%float = true.
Proof.
  unfold is_nan. rewrite eqb_spec, ltb_spec, Prim2SF_zero. unfold SFeqb.
  destruct (Prim2SF x) as [s|[]| |[] m e] eqn:E; cbn [isPositive];
    try contradiction; intros _.
  - split; reflexivity.
  - rewrite SFcompare_refl by discriminate. split; reflexivity.
Qed.

Lemma isNotPositive_spec (x : float) :
  isNotPositive (Prim2SF x) -> is_nan x = false /\ (0 <? x)%float = false.
Proof.
  unfold is_nan. rewrite eqb_spec, ltb_spec, Prim2SF_zero. unfold SFeqb.
  destruct (Prim2SF x) as [s|[]| |[] m e] eqn:E; cbn [isNotPositive];
    try contradiction; intros _;
    rewrite SFcompare_refl by discriminate; split; reflexivity.
Qed.

Lemma positive_shape (x : float) :
  (0 <? x)%float = true -> isPositive (Prim2SF x).
Proof.
  rewrite ltb_spec, Prim2SF_zero.
  destruct (Prim2SF x) as [s|[]| |[] m e]; cbn; trivial; discriminate.
Qed.

Lemma hasSign_false_not_negative (x : float) :
  hasSign false (Prim2SF x) -> (x <? 0)%float = false.
Proof.
  rewrite ltb_spec, Prim2SF_zero.
  destruct (Prim2SF x) as [s|s| |s m e]; cbn [hasSign]; intros H;
    try contradiction; subst; reflexivity.
Qed.

(** A product of two values above zero is not below zero. *)
Lemma mul_positive (x y : float) :
  isPositive (Prim2SF x) -> isPositive (Prim2SF y) ->
  (x * y <? 0)%float = false.
Proof.
  intros Hx Hy. apply hasSign_false_not_negative. rewrite mul_spec.
  destruct (Prim2SF x) as [s|[]| |[] m e]; try contradiction;
    destruct (Prim2SF y) as [s'|[]| |[] m' e']; try contradiction;
    try reflexivity.
  apply binary_round_aux_sign. lia.
Qed.

Lemma Math_max_zero_cases (y : float) :
  (is_nan (Math_max [0%float; y]) = true) \/
  Math_max [0%float; y] = 0%float \/
  (Math_max [0%float; y] = y /\ (0 <? y)%float = true).
Proof.
  rewrite Math_max_zero.
  destruct (is_nan y); [now left|].
  destruct (0 <? y)%float eqn:E; [right; right; now split | right; now left].
Qed.

Lemma nan_not_negative (x : float) : is_nan x = true -> (x <? 0)%float = false.
Proof.
  unfold is_nan. rewrite eqb_spec, ltb_spec, Prim2SF_zero. unfold SFeqb.
  destruct (Prim2SF x) as [s|s| |s m e] eqn:E; try reflexivity;
    rewrite SFcompare_refl by discriminate; discriminate.
Qed.

Lemma positive_not_negative (x : float) :
  (0 <? x)%float = true -> (x <? 0)%float = false.
Proof.
  intros H. apply positive_shape in H. rewrite ltb_spec, Prim2SF_zero.
  destruct (Prim2SF x) as [s|[]| |[] m e]; try contradiction; reflexivity.
Qed.

Lemma Math_max_zero_not_negative (y : float) :
  (Math_max [0%float; y] <? 0)%float = false.
Proof.
  destruct (Math_max_zero_cases y) as [Hnan | [-> | [-> Hpos]]].
  - now apply nan_not_negative.
  - reflexivity.
  - now apply positive_not_negative.
Qed.

(** X14. Whatever the trades, the taxable amount and the tax are never below
    zero; and the net figure is below zero only when the profit itself is,
    in which case it is the profit. *)
Theorem tax_never_negative (ts : list Trade) :
  let t := totals ts in
  (taxable t <? 0)%float = false /\
  (tax t <? 0)%float = false /\
  ((netAfterTax t <? 0)%float = true ->
   netAfterTax t = profit t /\ (profit t <? 0)%float = true).
Proof.
  cbv zeta. unfold totals, netAfterTax. cbv zeta.
  cbn [profit taxable tax].
  set (p := (snd _ - fst _)%float).
  split; [apply Math_max_zero_not_negative|]. split.
  - destruct (Math_max_zero_cases (p - BASIC_DEDUCTION)%float)
      as [Hnan | [-> | [-> Hpos]]].
    + apply nan_not_negative.
      revert Hnan. unfold is_nan. rewrite !eqb_spec, mul_spec. unfold SFeqb.
      destruct (Prim2SF (Math_max _)) as [s|s| |s m e];
        try (rewrite SFcompare_refl by discriminate; discriminate).
      reflexivity.
    + reflexivity.
    + apply mul_positive; [now apply positive_shape | exact I].
  - destruct (0 <? p)%float eqn:Hp.
    + now rewrite Math_max_zero_not_negative.
    + intros Hneg. split; [reflexivity | exact Hneg].
Qed.

(** ** The deduction as a threshold *)

Lemma valid_finite (s : bool) (m : positive) (e : Z) :
  valid_binary (S754_finite s m e) = true ->
  (-1074 <= e)%Z /\ (Zpos m < 2 ^ 53)%Z /\
  ((-1074 < e)%Z -> (2 ^ 52 <= Zpos m)%Z).
Proof.
  unfold SpecFloat.valid_binary, bounded, canonical_mantissa, fexp,
    SpecFloat.emin, prec, emax.
  intros H. apply andb_true_iff in H. destruct H as [Hc _].
  apply Z.eqb_eq in Hc.
  pose proof (digits2_pos_upper m) as Hup.
  pose proof (digits2_pos_lower m) as Hlo.
  split; [lia|]. split.
  - apply Z.lt_le_trans with (2 ^ Zpos (digits2_pos m))%Z; [exact Hup|].
    apply Z.pow_le_mono_r; lia.
  - intros He.
    assert (Hd : Zpos (digits2_pos m) = 53%Z) by lia.
    rewrite Hd in Hlo. exact Hlo.
Qed.

Lemma iter_xO_value (m d : positive) :
  Zpos (Pos.iter xO m d) = (Zpos m * 2 ^ Zpos d)%Z.
Proof.
  induction d as [|d IH] using Pos.peano_ind.
  - cbn. lia.
  - rewrite Pos.iter_succ, Pos2Z.inj_xO, IH, Pos2Z.inj_succ,
      Z.pow_succ_r by lia. lia.
Qed.

Lemma shl_align_value (m : positive) (e ez : Z) :
  (ez <= e)%Z ->
  Zpos (fst (shl_align m e ez)) = (Zpos m * 2 ^ (e - ez))%Z.
Proof.
  intros Hle. unfold shl_align.
  destruct (ez - e)%Z as [|d|d] eqn:Ed; cbn [fst]; try lia.
  - replace (e - ez)%Z with 0%Z by lia. lia.
  - rewrite iter_xO_value. f_equal. f_equal. lia.
Qed.

(** The sign of a difference of two finite values above zero is the sign of
    the difference of their mantissas once aligned. *)
Lemma SFsub_finite (m1 m2 : positive) (e1 e2 : Z) :
  (-1074 <= Z.min e1 e2)%Z ->
  let d := (Zpos m1 * 2 ^ (e1 - Z.min e1 e2)
            - Zpos m2 * 2 ^ (e2 - Z.min e1 e2))%Z in
  match SF64sub (S754_finite false m1 e1) (S754_finite false m2 e2) with
  | S754_zero _ => d = 0%Z
  | S754_finite s _ _ | S754_infinity s =>
      if s then (d < 0)%Z else (0 < d)%Z
  | S754_nan => False
  end.
Proof.
  intros Hmin d. unfold SF64sub, SFsub. cbn [cond_Zopp].
  rewrite !shl_align_value by lia. fold d.
  destruct d as [|q|q]; cbn [binary_normalize].
  - reflexivity.
  - pose proof (binary_round_nonzero prec emax ltac:(reflexivity) false q
                  (Z.min e1 e2) Hmin) as H.
    destruct (binary_round prec emax false q (Z.min e1 e2)) as [s|s| |s m e];
      try contradiction; subst; lia.
  - pose proof (binary_round_nonzero prec emax ltac:(reflexivity) true q
                  (Z.min e1 e2) Hmin) as H.
    destruct (binary_round prec emax true q (Z.min e1 e2)) as [s|s| |s m e];
      try contradiction; subst; lia.
Qed.

Lemma Prim2SF_BASIC_DEDUCTION_value :
  Prim2SF BASIC_DEDUCTION = S754_finite false 5368709120000000 (-31).
Proof. reflexivity. Qed.

Lemma pow2_ge_2 (k : Z) : (1 <= k)%Z -> (2 <= 2 ^ k)%Z.
Proof.
  intros Hk. change 2%Z with (2 ^ 1)%Z at 1. apply Z.pow_le_mono_r; lia.
Qed.

(** The profit less the deduction is above zero exactly when the profit is
    above the deduction, whatever the rounding; it is [NaN] only when the
    profit is. *)
Lemma sub_deduction_shape (p : float) :
  match Prim2SF p with
  | S754_nan => Prim2SF (p - BASIC_DEDUCTION) = S754_nan
  | _ =>
      if (BASIC_DEDUCTION <? p)%float
      then isPositive (Prim2SF (p - BASIC_DEDUCTION))
      else isNotPositive (Prim2SF (p - BASIC_DEDUCTION))
  end.
Proof.
  rewrite sub_spec, ltb_spec, Prim2SF_BASIC_DEDUCTION_value.
  pose proof (Prim2SF_valid p) as Hv.
  destruct (Prim2SF p) as [s|[]| |[] m e]; try exact I; try reflexivity.
  - pose proof (SFsub_negative prec emax m 5368709120000000 e (-31)) as H.
    change (SFltb (S754_finite false 5368709120000000 (-31))
                  (S754_finite true m e)) with false. cbv iota.
    unfold SF64sub.
    destruct (SFsub prec emax _ _) as [s|s| |s m' e']; cbn [hasSign] in H;
      try contradiction; subst; exact I.
  - destruct (valid_finite _ _ _ Hv) as (Hemin & Hup & Hnormal).
    pose proof (SFsub_finite m 5368709120000000 e (-31) ltac:(lia)) as H.
    cbv zeta in H.
    unfold SFltb, SFcompare.
    destruct (Z.compare_spec (-31) e) as [He|He|He].
    + subst e. rewrite Z.min_id, Z.sub_diag in H.
      change (2 ^ 0)%Z with 1%Z in H. rewrite !Z.mul_1_r in H.
      change (Pos.compare_cont Eq 5368709120000000 m)
        with (Z.compare 5368709120000000 (Zpos m)).
      revert H. clear.
      destruct (Z.compare_spec 5368709120000000 (Zpos m)) as [Hm|Hm|Hm];
        destruct (SF64sub _ _) as [s|[]| |[] m' e'];
        cbn [isPositive isNotPositive]; intros H; trivial; lia.
    + rewrite Z.min_r in H by lia.
      pose proof (pow2_ge_2 (e - -31) ltac:(lia)) as Hk.
      specialize (Hnormal ltac:(lia)).
      rewrite Z.sub_diag in H. change (2 ^ 0)%Z with 1%Z in H.
      change (2 ^ 52)%Z with 4503599627370496%Z in Hnormal.
      revert H.
      destruct (SF64sub _ _) as [s|[]| |[] m' e'];
        cbn [isPositive isNotPositive]; intros H; trivial; nia.
    + rewrite Z.min_l in H by lia.
      pose proof (pow2_ge_2 (-31 - e) ltac:(lia)) as Hk.
      rewrite Z.sub_diag in H. change (2 ^ 0)%Z with 1%Z in H.
      change (2 ^ 53)%Z with 9007199254740992%Z in Hup.
      revert H.
      destruct (SF64sub _ _) as [s|[]| |[] m' e'];
        cbn [isPositive isNotPositive]; intros H; trivial; nia.
Qed.

Lemma is_nan_Prim2SF (x : float) :
  is_nan x = match Prim2SF x with S754_nan => true | _ => false end.
Proof.
  unfold is_nan. rewrite eqb_spec. unfold SFeqb.
  destruct (Prim2SF x) as [s|s| |s m e] eqn:E; try reflexivity;
    now rewrite SFcompare_refl by discriminate.
Qed.

Lemma Prim2SF_nan (x : float) : Prim2SF x = S754_nan -> x = nan.
Proof.
  intros H. rewrite <- (SF2Prim_Prim2SF x), H. reflexivity.
Qed.

Lemma compare_cont_Z (a b : positive) :
  PosDef.Pos.compare_cont Eq a b = Z.compare (Zpos a) (Zpos b).
Proof. reflexivity. Qed.

Lemma leb_deduction (p : float) :
  (p <=? BASIC_DEDUCTION)%float = true ->
  is_nan p = false /\ (BASIC_DEDUCTION <? p)%float = false.
Proof.
  rewrite is_nan_Prim2SF, leb_spec, ltb_spec, Prim2SF_BASIC_DEDUCTION_value.
  destruct (Prim2SF p) as [s|[]| |[] m e]; try (intros; split; reflexivity);
    try discriminate.
  unfold SFleb, SFltb, SFcompare.
  rewrite !compare_cont_Z.
  rewrite (Z.compare_antisym e (-31)), (Z.compare_antisym (Zpos m)).
  destruct (Z.compare e (-31)); cbn [CompOpp]; try (intros; split; reflexivity);
    try discriminate.
  destruct (Z.compare (Zpos m) 5368709120000000); cbn [CompOpp];
    try (intros; split; reflexivity); discriminate.
Qed.

(** The taxable amount, read off the shape of the profit less the
    deduction. *)
Lemma taxable_by_threshold (p : float) :
  (0 <? Math_max [0; p - BASIC_DEDUCTION])%float = (BASIC_DEDUCTION <? p)%float /\
  is_nan (Math_max [0; p - BASIC_DEDUCTION]%float) = is_nan p /\
  ((BASIC_DEDUCTION <? p)%float = true ->
     Math_max [0; p - BASIC_DEDUCTION]%float = (p - BASIC_DEDUCTION)%float) /\
  (is_nan p = false -> (BASIC_DEDUCTION <? p)%float = false ->
     Math_max [0; p - BASIC_DEDUCTION]%float = 0%float).
Proof.
  pose proof (sub_deduction_shape p) as Hshape.
  rewrite (is_nan_Prim2SF p), Math_max_zero.
  assert (Hlt : Prim2SF p = S754_nan -> (BASIC_DEDUCTION <? p)%float = false).
  { intros Hp. rewrite ltb_spec, Hp. reflexivity. }
  destruct (Prim2SF p) as [s|s| |s m e] eqn:Ep.
  3: { apply Prim2SF_nan in Hshape. rewrite Hshape, (Hlt eq_refl).
       repeat split; try reflexivity; discriminate. }
  all: clear Hlt; destruct (BASIC_DEDUCTION <? p)%float.
  all: try (destruct (isPositive_spec _ Hshape) as [Hn Hz]; rewrite Hn, Hz;
            split; [exact Hz|]; split; [exact Hn|]; split;
            [reflexivity | discriminate]).
  all: destruct (isNotPositive_spec _ Hshape) as [Hn Hz]; rewrite Hn, Hz;
    split; [reflexivity|]; split; [reflexivity|]; split;
    [discriminate | reflexivity].
Qed.

(** X15. The deduction is a threshold, whatever the rounding: the taxable
    amount is above zero exactly when the profit is above 2,500,000, and it
    is then the profit less the deduction; when the profit is at most
    2,500,000 the taxable amount and the tax are 0; and the taxable amount
    is not a number exactly when the profit is not one. *)
Theorem deduction_is_a_threshold (ts : list Trade) :
  let t := totals ts in
  (0 <? taxable t)%float = (2500000 <? profit t)%float /\
  ((2500000 <? profit t)%float = true ->
     taxable t = (profit t - 2500000)%float) /\
  ((profit t <=? 2500000)%float = true ->
     taxable t = 0%float /\ tax t = 0%float) /\
  is_nan (taxable t) = is_nan (profit t).
Proof.
  cbv zeta. unfold totals. cbv zeta. cbn [profit taxable tax].
  set (p := (snd _ - fst _)%float).
  change 2500000%float with BASIC_DEDUCTION.
  destruct (taxable_by_threshold p) as (Hpos & Hnan & Habove & Hbelow).
  split; [exact Hpos|]. split; [exact Habove|]. split; [|exact Hnan].
  intros Hle. destruct (leb_deduction p Hle) as [Hn Hlt].
  rewrite (Hbelow Hn Hlt). split; reflexivity.
Qed.

(** ** Rows that weigh nothing *)

Lemma add_notNegativeZero (a g : float) :
  notNegativeZero a -> notNegativeZero (a + g)%float.
Proof.
  unfold notNegativeZero. rewrite add_spec.
  pose proof (Prim2SF_valid a) as Hva. pose proof (Prim2SF_valid g) as Hvg.
  destruct (Prim2SF a) as [[]|sa| |sa ma ea]; intros Ha;
    try (now elim Ha);
    destruct (Prim2SF g) as [sg|sg| |sg mg eg];
    try discriminate;
    try (destruct sg; discriminate);
    try (destruct sa, sg; discriminate).
  destruct (valid_finite _ _ _ Hva) as (Hea & _).
  destruct (valid_finite _ _ _ Hvg) as (Heg & _).
  assert (Hmin : (-1074 <= Z.min ea eg)%Z) by lia.
  unfold SF64add, SFadd.
  destruct (cond_Zopp sa _ + cond_Zopp sg _)%Z as [|q|q];
    cbn [binary_normalize]; [discriminate| |].
  - pose proof (binary_round_nonzero prec emax ltac:(reflexivity) false q
                  (Z.min ea eg) Hmin) as H.
    destruct (binary_round prec emax false q (Z.min ea eg));
      try contradiction; discriminate.
  - pose proof (binary_round_nonzero prec emax ltac:(reflexivity) true q
                  (Z.min ea eg) Hmin) as H.
    destruct (binary_round prec emax true q (Z.min ea eg));
      try contradiction; discriminate.
Qed.

Lemma add_zero (a z : float) :
  notNegativeZero a -> (z =? 0)%float = true -> (a + z)%float = a.
Proof.
  unfold notNegativeZero. intros Ha Hz. apply Prim2SF_inj.
  rewrite add_spec. revert Hz. rewrite eqb_spec, Prim2SF_zero.
  destruct (Prim2SF z) as [sz|[]| |[] mz ez]; try discriminate. intros _.
  destruct (Prim2SF a) as [[]|sa| |sa ma ea]; try reflexivity.
  - now elim Ha.
  - now destruct sz.
Qed.

Lemma fold_addGross_notNegativeZero (ts : list Trade) :
  forall acc,
    notNegativeZero (fst acc) -> notNegativeZero (snd acc) ->
    notNegativeZero (fst (fold_left addGross ts acc)) /\
    notNegativeZero (snd (fold_left addGross ts acc)).
Proof.
  induction ts as [|t ts IH]; intros acc Hb Hs; cbn [fold_left].
  - now split.
  - apply IH; unfold addGross; destruct (type t); cbn [fst snd];
      trivial; now apply add_notNegativeZero.
Qed.

(** X16. A row whose amount times price is zero weighs nothing: wherever it
    stands in the list, the totals are those of the list without it. A blank
    row, as the page starts with and as the add button appends, is such a
    row. *)
Theorem zero_rows_weigh_nothing (h : Host) (l1 l2 : list Trade) (t : Trade)
    (n : nat) :
  ((amount t * price t =? 0)%float = true ->
   totals (l1 ++ t :: l2) = totals (l1 ++ l2)) /\
  totals (l1 ++ createEmptyTrade h n :: l2) = totals (l1 ++ l2).
Proof.
  assert (Hgen : forall t0, (amount t0 * price t0 =? 0)%float = true ->
                            totals (l1 ++ t0 :: l2) = totals (l1 ++ l2)).
  { intros t0 Hzero. unfold totals. rewrite !fold_left_app. cbn [fold_left].
    destruct (fold_addGross_notNegativeZero l1 (0, 0)%float) as [Hb Hs];
      try discriminate.
    assert (Hsame : addGross (fold_left addGross l1 (0, 0)%float) t0 =
                    fold_left addGross l1 (0, 0)%float).
    { destruct (fold_left addGross l1 (0, 0)%float) as [b s].
      cbn [fst snd] in Hb, Hs. unfold addGross. cbn [fst snd].
      destruct (type t0); now rewrite add_zero. }
    now rewrite Hsame. }
  split; [apply Hgen|]. apply Hgen. reflexivity.
Qed.

Lemma zero_rows_weigh_nothing_witness :
  let t := {| id := []; date := []; type := sell; amount := 0; price := 600000;
              amountInput := []; priceInput := [] |} in
  (amount t * price t =? 0)%float = true /\
  totals ([createEmptyTrade demoHost 0] ++ t :: []) =
  totals ([createEmptyTrade demoHost 0] ++ []).
Proof.
  cbv zeta. split; [reflexivity|].
  exact (proj1 (zero_rows_weigh_nothing demoHost [createEmptyTrade demoHost 0] []
                  {| id := []; date := []; type := sell; amount := 0;
                     price := 600000; amountInput := []; priceInput := [] |} 0)
               eq_refl).
Defined.

(** ** What an imported trade holds *)

(** X17. A trade that the import keeps carries the identifier drawn for it,
    the type read from its type cell, a date of at most ten code units,
    which is the day of the import when the header has no date column or
    the cell is empty, and, as the texts of its two number fields, the
    printed forms of the amount and the price it stores: the empty texts
    that the source provides for numbers that are not finite are never
    used. *)
Theorem imported_trade_fields (h : Host) (cols : Columns) (line : jsstring)
    (n : nat) (t : Trade) :
  rowToTrade h cols line n = Some t ->
  id t = randomUUID h n /\
  type t = toTradeType (getCell (parseCsvLine line) (typeIdx cols)) /\
  List.length (date t) <= 10 /\
  (getCell (parseCsvLine line) (dateIdx cols) = None \/
   getCell (parseCsvLine line) (dateIdx cols) = Some [] ->
   date t = slice0 10 (nowISOString h)) /\
  amountInput t = numberToString h (amount t) /\
  priceInput t = numberToString h (price t).
Proof.
  rewrite rowToTrade_eq. cbv zeta.
  destruct (isFinite _ && isFinite _); [|discriminate].
  intros [= <-]. cbn [id type date amountInput priceInput amount price].
  repeat split.
  - unfold normalizeDate, slice0.
    destruct (getCell (parseCsvLine line) (dateIdx cols)) as [value|];
      [destruct (negb (truthy value)); [|destruct (dateISOString h value)]|];
      apply length_firstn_le || (rewrite length_firstn; lia).
  - intros [-> | ->]; reflexivity.
Qed.

Lemma imported_trade_fields_witness :
  exists t,
    rowToTrade demoHost (columnsOf fillTotalHeader) (utf16 "1000,4,buy") 7 = Some t /\
    id t = randomUUID demoHost 7 /\ date t = utf16 "2025-01-01".
Proof.
  destruct (rowToTrade demoHost (columnsOf fillTotalHeader) (utf16 "1000,4,buy") 7)
    as [t|] eqn:E; [|vm_compute in E; discriminate E].
  exists t. split; [reflexivity|].
  destruct (imported_trade_fields demoHost _ _ _ _ E) as (Hid & _ & _ & Hdate & _).
  split; [exact Hid|]. rewrite Hdate; [reflexivity | left; reflexivity].
Defined.

(** ** Numbers read from text without a minus sign *)

Lemma binary_normalize_nonneg (z e : Z) :
  (0 <= z)%Z -> hasSign false (binary_normalize prec emax z e false).
Proof.
  intros Hz. destruct z as [|q|q]; cbn [binary_normalize]; try lia.
  - reflexivity.
  - apply binary_round_sign.
Qed.

(** The number that stands for a specification value of sign plus is not
    below zero, whether or not the value is a valid binary64 value. *)
Lemma SF2Prim_not_negative (x : spec_float) :
  hasSign false x -> (SF2Prim x <? 0)%float = false.
Proof.
  destruct x as [s|s| |s m e]; cbn [hasSign]; intros Hs;
    try contradiction; subst; try reflexivity.
  apply hasSign_false_not_negative. cbn [SF2Prim].
  rewrite Z_ldexp_spec, of_uint63_spec.
  pose proof (binary_normalize_nonneg
                (Uint63Axioms.to_Z (Uint63Axioms.of_Z (Zpos m))) 0
                (proj1 (Uint63.to_Z_bounded _))) as H.
  destruct (binary_normalize prec emax _ 0 false) as [s|s| |s m' e'];
    cbn [hasSign] in H; try contradiction; subst; cbn [SFldexp hasSign];
    try reflexivity.
  apply binary_round_sign.
Qed.

Lemma digitsValue_nonneg (ds : jsstring) :
  forall acc, (0 <= acc)%Z -> (0 <= digitsValue acc ds)%Z.
Proof.
  unfold digitsValue. induction ds as [|c ds IH]; intros acc Hacc; cbn [fold_left].
  - exact Hacc.
  - apply IH. lia.
Qed.

Lemma roundDecimal_not_negative (m e10 : Z) :
  (0 <= m)%Z -> (roundDecimal false m e10 <? 0)%float = false.
Proof.
  intros Hm. unfold roundDecimal. apply SF2Prim_not_negative.
  destruct m as [|p|p]; [reflexivity| |lia].
  destruct (Z.leb 0 e10) eqn:He.
  - apply binary_normalize_nonneg. cbn [cond_Zopp].
    apply Z.leb_le in He. apply Z.mul_nonneg_nonneg; [lia|].
    now apply Z.pow_nonneg.
  - unfold SFdiv_core_binary.
    set (m' := match _ with Z0 => Zpos p | Zpos _ => _ | Zneg _ => 0%Z end).
    assert (Hm' : (0 <= m')%Z).
    { unfold m'. destruct (_ - _ - _)%Z; try lia.
      apply Z.shiftl_nonneg. lia. }
    assert (Hten : (0 < 10 ^ (- e10))%Z).
    { apply Z.leb_gt in He. apply Z.pow_pos_nonneg; lia. }
    pose proof (Z.div_pos m' (10 ^ (- e10)) Hm' Hten) as Hq.
    unfold Z.div in Hq.
    destruct (Z.div_eucl m' (10 ^ (- e10))) as [q r]. cbn [fst] in Hq.
    now apply binary_round_aux_sign.
Qed.

Lemma parseUnsigned_not_negative (s : jsstring) :
  (parseUnsigned false s <? 0)%float = false.
Proof.
  unfold parseUnsigned. destruct (startsWith s (utf16 "Infinity")); [reflexivity|].
  destruct (spanDigits s) as [intDigits afterInt].
  destruct (match afterInt with
            | [] => _
            | c :: rest => _
            end) as [fracDigits afterFrac].
  assert (Hround : forall e,
             (roundDecimal false
                (digitsValue (digitsValue 0 intDigits) fracDigits) e <? 0)%float
             = false).
  { intros e. apply roundDecimal_not_negative.
    apply digitsValue_nonneg, digitsValue_nonneg. lia. }
  destruct (readExponent afterFrac) as [e rest].
  destruct intDigits, fracDigits; try apply Hround. reflexivity.
Qed.

Lemma trimStart_incl (s : jsstring) (c : N) : In c (trimStart s) -> In c s.
Proof.
  induction s as [|x s IH]; cbn [trimStart]; [trivial|].
  destruct (isWhiteSpace x); [intros H; right; now apply IH | trivial].
Qed.

Lemma parseFloat_not_negative (s : jsstring) :
  hasNo MINUS s -> (parseFloat s <? 0)%float = false.
Proof.
  unfold hasNo, parseFloat. intros Hno.
  destruct (trimStart s) as [|c rest] eqn:E; [reflexivity|].
  destruct (N.eqb c 45) eqn:Ec.
  - apply N.eqb_eq in Ec. subst c. exfalso. apply Hno.
    apply trimStart_incl. rewrite E. now left.
  - destruct (N.eqb c 43); apply parseUnsigned_not_negative.
Qed.

Lemma trim_incl (s : jsstring) (c : N) : In c (trim s) -> In c s.
Proof.
  unfold trim, trimEnd. intros H.
  apply in_rev, trimStart_incl in H. apply in_rev in H.
  now apply trimStart_incl.
Qed.

Lemma normalizeNumber_not_negative (value : jsstring) :
  hasNo MINUS value -> (normalizeNumber (Some value) <? 0)%float = false.
Proof.
  intros Hno. unfold normalizeNumber.
  destruct (negb (truthy value)); [reflexivity|].
  destruct (truthy (trim (removeCommas value))); [|reflexivity].
  apply parseFloat_not_negative. intros Hin. apply Hno.
  apply trim_incl in Hin. unfold removeCommas in Hin.
  now apply filter_In in Hin.
Qed.

(** X18. A number below zero can only come from a text that holds a minus
    sign: the number read from any other text, by [parseFloat] or by
    [normalizeNumber], is not below zero, and an amount or price edit with
    such a text leaves no amount or price below zero where there was
    none. *)
Theorem no_minus_no_negative (value : jsstring) :
  hasNo MINUS value ->
  (parseFloat value <? 0)%float = false /\
  (normalizeNumber (Some value) <? 0)%float = false /\
  (forall id0 prev,
      Forall (fun t => (amount t <? 0)%float = false) prev ->
      Forall (fun t => (amount t <? 0)%float = false)
             (handleAmountChange id0 value prev)) /\
  (forall id0 prev,
      Forall (fun t => (price t <? 0)%float = false) prev ->
      Forall (fun t => (price t <? 0)%float = false)
             (handlePriceChange id0 value prev)).
Proof.
  intros Hno.
  pose proof (parseFloat_not_negative value Hno) as Hparse.
  assert (Hstored : ((if isFinite (parseFloat value)
                      then parseFloat value else 0) <? 0)%float = false)
    by (destruct (isFinite (parseFloat value)); [exact Hparse | reflexivity]).
  split; [exact Hparse|]. split; [now apply normalizeNumber_not_negative|].
  split; intros id0 prev Hprev;
    [unfold handleAmountChange | unfold handlePriceChange];
    apply Forall_map;
    (eapply Forall_impl; [|exact Hprev]); cbv beta; intros t Ht;
    destruct (negb (jsstring_eqb (id t) id0)); trivial.
Qed.

Lemma no_minus_no_negative_witness :
  hasNo MINUS (utf16 "12.5e3") /\ (parseFloat (utf16 "12.5e3") <? 0)%float = false.
Proof.
  assert (Hno : hasNo MINUS (utf16 "12.5e3"))
    by (unfold hasNo; vm_compute; intuition discriminate).
  split; [exact Hno|]. exact (proj1 (no_minus_no_negative _ Hno)).
Defined.

(** ** Imports of text without a minus sign *)

Section Characters.

Variable P : N -> Prop.

Lemma trimStart_Forall (s : jsstring) : Forall P s -> Forall P (trimStart s).
Proof.
  intros H. apply Forall_forall. intros c Hin.
  apply trimStart_incl in Hin. revert c Hin. now apply Forall_forall.
Qed.

Lemma trim_Forall (s : jsstring) : Forall P s -> Forall P (trim s).
Proof.
  intros H. apply Forall_forall. intros c Hin.
  apply trim_incl in Hin. revert c Hin. now apply Forall_forall.
Qed.

(** The characters of the fields are characters of the line. *)
Lemma scanLine_Forall (n : nat) :
  forall line st,
    List.length line <= n -> Forall P line ->
    Forall (Forall P) (result st) -> Forall P (current st) ->
    Forall (Forall P) (result (scanLine line st)) /\
    Forall P (current (scanLine line st)).
Proof.
  assert (Hchar : forall c st,
             P c -> Forall (Forall P) (result st) -> Forall P (current st) ->
             Forall (Forall P) (result (scanChar c st)) /\
             Forall P (current (scanChar c st))).
  { intros c st Hc Hr Hcur. unfold scanChar.
    destruct (N.eqb c QUOTE); [now split|].
    destruct (N.eqb c COMMA && negb (insideQuotes st)); cbn [result current].
    - split; [|constructor]. apply Forall_app. split; [exact Hr|].
      constructor; [now apply trim_Forall | constructor].
    - split; [exact Hr|]. apply Forall_app. split; [exact Hcur|].
      now constructor. }
  induction n as [|n IH]; intros line st Hlen Hline Hr Hcur.
  - destruct line; [now split | cbn in Hlen; lia].
  - destruct line as [|c [|next rest]]; [now split | |].
    + apply Hchar; trivial. now inversion Hline.
    + rewrite scanLine_cons2. cbn [List.length] in Hlen.
      inversion Hline as [|? ? Hc Hrest]; subst.
      destruct (N.eqb c QUOTE && N.eqb next QUOTE) eqn:E.
      * apply andb_true_iff in E. destruct E as [E _].
        apply N.eqb_eq in E. subst c.
        apply IH; [lia | now inversion Hrest | exact Hr |].
        cbn [emitQuote current]. apply Forall_app. split; [exact Hcur|].
        now constructor.
      * destruct (Hchar c st Hc Hr Hcur) as [Hr' Hcur'].
        apply IH; [cbn [List.length]; lia | exact Hrest | exact Hr' | exact Hcur'].
Qed.

Lemma parseCsvLine_Forall (line : jsstring) :
  Forall P line -> Forall (Forall P) (parseCsvLine line).
Proof.
  intros Hline. unfold parseCsvLine. cbv zeta.
  destruct (scanLine_Forall (List.length line) line
              {| result := []; current := []; insideQuotes := false |}
              (le_n _) Hline (Forall_nil _) (Forall_nil _)) as [Hr Hcur].
  apply Forall_app. split; [exact Hr|].
  constructor; [now apply trim_Forall | constructor].
Qed.

(** The characters of the lines are characters of the text. *)
Lemma splitLinesFrom_Forall (n : nat) :
  forall text current,
    List.length text <= n -> Forall P text -> Forall P current ->
    Forall (Forall P) (splitLinesFrom text current).
Proof.
  induction n as [|n IH]; intros text current Hlen Htext Hcur.
  - destruct text; [now repeat constructor | cbn in Hlen; lia].
  - destruct text as [|c rest]; [now repeat constructor|].
    cbn [List.length] in Hlen. inversion Htext as [|? ? Hc Hrest]; subst.
    assert (Hnext : Forall P (current ++ [c]))
      by (apply Forall_app; split; [exact Hcur | now constructor]).
    cbn [splitLinesFrom]. destruct (N.eqb c LF).
    + constructor; [exact Hcur|]. apply IH; [lia | exact Hrest | constructor].
    + destruct rest as [|c' rest'].
      * apply IH; [lia | constructor | exact Hnext].
      * destruct (N.eqb c CR && N.eqb c' LF).
        -- constructor; [exact Hcur|]. cbn [List.length] in Hlen.
           apply IH; [lia | now inversion Hrest | constructor].
        -- apply IH; [lia | exact Hrest | exact Hnext].
Qed.

Lemma linesOf_Forall (text : jsstring) :
  Forall P text -> Forall (Forall P) (linesOf text).
Proof.
  intros Htext. unfold linesOf, splitLines.
  pose proof (splitLinesFrom_Forall (List.length text) text [] (le_n _)
                Htext (Forall_nil _)) as Hlines.
  apply Forall_forall. intros l Hin. apply filter_In in Hin.
  destruct Hin as [Hin _]. apply in_map_iff in Hin.
  destruct Hin as (l0 & <- & Hin0). apply trim_Forall.
  revert l0 Hin0. now apply Forall_forall.
Qed.

End Characters.

Lemma not_negative_shape (x : float) :
  (x <? 0)%float = false ->
  match Prim2SF x with
  | S754_finite true _ _ | S754_infinity true => False
  | _ => True
  end.
Proof.
  rewrite ltb_spec, Prim2SF_zero.
  destruct (Prim2SF x) as [s|[]| |[] m e]; cbn; trivial; discriminate.
Qed.

Lemma shape_not_negative (x : float) :
  match Prim2SF x with
  | S754_finite true _ _ | S754_infinity true => False
  | _ => True
  end ->
  (x <? 0)%float = false.
Proof.
  rewrite ltb_spec, Prim2SF_zero.
  destruct (Prim2SF x) as [s|[]| |[] m e]; cbn; trivial; contradiction.
Qed.

(** A quotient of a value that is not below zero by a value above zero is
    not below zero. *)
Lemma div_not_negative (x y : float) :
  (x <? 0)%float = false -> (0 <? y)%float = true ->
  (x / y <? 0)%float = false.
Proof.
  intros Hx Hy. apply not_negative_shape in Hx. apply positive_shape in Hy.
  apply shape_not_negative. rewrite div_spec.
  destruct (Prim2SF x) as [sx|[]| |[] mx ex]; try contradiction;
    destruct (Prim2SF y) as [sy|[]| |[] my ey]; try contradiction;
    try exact I.
  unfold SF64div, SFdiv, SFdiv_core_binary.
  set (m' := match _ with Z0 => Zpos mx | Zpos _ => _ | Zneg _ => 0%Z end).
  assert (Hm' : (0 <= m')%Z).
  { unfold m'. destruct (_ - _ - _)%Z; try lia. apply Z.shiftl_nonneg. lia. }
  pose proof (Z.div_pos m' (Zpos my) Hm' ltac:(lia)) as Hq.
  unfold Z.div in Hq.
  destruct (Z.div_eucl m' (Zpos my)) as [q r]. cbn [fst] in Hq.
  pose proof (binary_round_aux_sign prec emax (xorb false false) q
                (Z.min (fexp prec emax
                          (Zdigits2 (Zpos mx) + ex - (Zdigits2 (Zpos my) + ey)))
                       (ex - ey))
                (new_location (Zpos my) r) Hq) as H.
  destruct (binary_round_aux _ _ _ _ _ _) as [s|s| |s m e];
    cbn [hasSign xorb] in H; try contradiction; subst; exact I.
Qed.

Section Unsigned.

Variable h : Host.

Lemma cell_not_negative (cells : list jsstring) (idx : Z) :
  Forall (hasNo MINUS) cells ->
  (normalizeNumber (getCell cells idx) <? 0)%float = false.
Proof.
  intros Hcells. unfold getCell.
  destruct (Z.leb 0 idx && Z.ltb idx _); [|reflexivity].
  destruct (nth_error cells (Z.to_nat idx)) as [v|] eqn:E; [|reflexivity].
  apply normalizeNumber_not_negative.
  apply nth_error_In in E. revert v E. now apply Forall_forall.
Qed.

Lemma row_not_negative (cols : Columns) (line : jsstring) (n : nat) (t : Trade) :
  hasNo MINUS line -> rowToTrade h cols line n = Some t ->
  (amount t <? 0)%float = false /\ (price t <? 0)%float = false.
Proof.
  intros Hno Hrow.
  assert (Hcells : Forall (hasNo MINUS) (parseCsvLine line)).
  { assert (Hline : Forall (fun c => c <> MINUS) line)
      by (apply Forall_forall; intros c Hin ->; now apply Hno).
    apply parseCsvLine_Forall in Hline.
    eapply Forall_impl; [|exact Hline]. cbv beta. intros f Hf Hin.
    rewrite Forall_forall in Hf. now apply (Hf MINUS). }
  destruct (rowToTrade_Some h _ _ _ _ Hrow) as (_ & -> & -> & _).
  unfold amountCell, priceCell, totalCell.
  pose proof (cell_not_negative _ (amountIdx cols) Hcells) as Ha.
  pose proof (cell_not_negative _ (priceIdx cols) Hcells) as Hp.
  pose proof (cell_not_negative _ (totalIdx cols) Hcells) as Ht.
  split; [exact Ha|]. unfold resolvePrice.
  destruct (isFinite _ && (0 <? _)%float); [exact Hp|].
  destruct (isFinite _ && isFinite _ && (0 <? _)%float) eqn:E; [|reflexivity].
  apply andb_true_iff in E. destruct E as [_ Hpos].
  now apply div_not_negative.
Qed.

Lemma parseRows_Forall (Q : Trade -> Prop) (cols : Columns) (rows : list jsstring) :
  (forall line n t, In line rows -> rowToTrade h cols line n = Some t -> Q t) ->
  forall n, Forall Q (fst (parseRows h cols rows n [])).
Proof.
  induction rows as [|line rows IH]; intros Hrows n; cbn [parseRows].
  - constructor.
  - assert (Hrest : forall l m t, In l rows ->
                      rowToTrade h cols l m = Some t -> Q t)
      by (intros l m t Hin; apply Hrows; now right).
    destruct (rowToTrade h cols line n) as [t|] eqn:E.
    + rewrite parseRows_app. apply Forall_app. split; [|now apply IH].
      constructor; [|constructor]. apply (Hrows line n t); [now left | exact E].
    + now apply IH.
Qed.

(** X19. The tokenizer and the line splitter invent no character: every
    character of a field is a character of its line, and every character of
    a line a character of the text. So a file without a minus sign imports
    no amount and no price below zero, and neither does a row without one,
    also when the price is derived as total / amount. *)
Theorem import_without_minus (text line : jsstring) (cols : Columns) (n : nat) :
  (forall field c, In field (parseCsvLine line) -> In c field -> In c line) /\
  (forall l c, In l (linesOf text) -> In c l -> In c text) /\
  (hasNo MINUS line -> forall t,
     rowToTrade h cols line n = Some t ->
     (amount t <? 0)%float = false /\ (price t <? 0)%float = false) /\
  (hasNo MINUS text ->
   Forall (fun t => (amount t <? 0)%float = false /\ (price t <? 0)%float = false)
          (fst (parseCsvToTrades h text n))).
Proof.
  split; [|split; [|split]].
  - intros field c Hf Hc.
    pose proof (parseCsvLine_Forall (fun x => In x line) line
                  (proj2 (Forall_forall _ _) (fun x Hx => Hx))) as Hall.
    rewrite Forall_forall in Hall. specialize (Hall field Hf).
    rewrite Forall_forall in Hall. now apply Hall.
  - intros l c Hl Hc.
    pose proof (linesOf_Forall (fun x => In x text) text
                  (proj2 (Forall_forall _ _) (fun x Hx => Hx))) as Hall.
    rewrite Forall_forall in Hall. specialize (Hall l Hl).
    rewrite Forall_forall in Hall. now apply Hall.
  - intros Hno t Hrow. now apply (row_not_negative cols line n).
  - intros Hno. unfold parseCsvToTrades. cbv zeta.
    destruct (Nat.ltb _ 2); [constructor|].
    apply parseRows_Forall. intros l m t Hin Hrow.
    refine (row_not_negative _ l m t _ Hrow).
    assert (Hlines : Forall (Forall (fun c => c <> MINUS)) (linesOf text)).
    { apply linesOf_Forall, Forall_forall. intros c Hc ->. now apply Hno. }
    rewrite Forall_forall in Hlines.
    assert (Hl : In l (linesOf text)).
    { rewrite <- (firstn_skipn 1 (linesOf text)). apply in_or_app. now right. }
    specialize (Hlines l Hl). rewrite Forall_forall in Hlines.
    intros Hminus. now apply (Hlines MINUS).
Qed.

End Unsigned.

Lemma import_without_minus_witness :
  hasNo MINUS (utf16 "total,quantity" ++ [LF] ++ utf16 "1000,4") /\
  Forall (fun t => (amount t <? 0)%float = false /\ (price t <? 0)%float = false)
         (fst (parseCsvToTrades demoHost
                 (utf16 "total,quantity" ++ [LF] ++ utf16 "1000,4") 1)).
Proof.
  split.
  - unfold hasNo. vm_compute.
    intros H; repeat (destruct H as [H|H]; [discriminate H|]); exact H.
  - apply (import_without_minus demoHost
             (utf16 "total,quantity" ++ [LF] ++ utf16 "1000,4") [] 
             (columnsOf []) 1).
    unfold hasNo. vm_compute.
    intros H; repeat (destruct H as [H|H]; [discriminate H|]); exact H.
Defined.

(** ** The donut chart *)

Lemma zero_or_above_shape (x : float) :
  (x = 0%float \/ is_nan x = true \/ (0 <? x)%float = true) <->
  match Prim2SF x with
  | S754_zero false | S754_nan | S754_infinity false
  | S754_finite false _ _ => True
  | _ => False
  end.
Proof.
  split.
  - intros [-> | [H | H]].
    + exact I.
    + rewrite is_nan_Prim2SF in H.
      destruct (Prim2SF x) as [[]|[]| |[] m e]; try discriminate; exact I.
    + apply positive_shape in H.
      destruct (Prim2SF x) as [[]|[]| |[] m e]; try contradiction; exact I.
  - intros H.
    destruct (Prim2SF x) as [[]|[]| |[] m e] eqn:E; try contradiction.
    + left. apply Prim2SF_inj. now rewrite E.
    + right; right. apply isPositive_spec. now rewrite E.
    + right; left. rewrite is_nan_Prim2SF. now rewrite E.
    + right; right. apply isPositive_spec. now rewrite E.
Qed.

(** A sum of two values that are [+0], [NaN] or above zero is one. *)
Lemma add_zero_or_above (a g : float) :
  (a = 0%float \/ is_nan a = true \/ (0 <? a)%float = true) ->
  (g = 0%float \/ is_nan g = true \/ (0 <? g)%float = true) ->
  ((a + g)%float = 0%float \/ is_nan (a + g)%float = true \/
   (0 <? a + g)%float = true).
Proof.
  rewrite !zero_or_above_shape, add_spec.
  pose proof (Prim2SF_valid a) as Hva. pose proof (Prim2SF_valid g) as Hvg.
  destruct (Prim2SF a) as [[]|[]| |[] ma ea]; try contradiction; intros _;
    destruct (Prim2SF g) as [[]|[]| |[] mg eg]; try contradiction; intros _;
    try exact I.
  destruct (valid_finite _ _ _ Hva) as (Hea & _).
  destruct (valid_finite _ _ _ Hvg) as (Heg & _).
  assert (Hmin : (-1074 <= Z.min ea eg)%Z) by lia.
  unfold SF64add, SFadd. cbn [cond_Zopp].
  destruct (Zpos _ + Zpos _)%Z as [|q|q] eqn:Eq; try lia.
  cbn [binary_normalize].
  pose proof (binary_round_nonzero prec emax ltac:(reflexivity) false q
                (Z.min ea eg) Hmin) as H.
  destruct (binary_round prec emax false q (Z.min ea eg)) as [s|s| |s m e];
    try contradiction; subst; exact I.
Qed.

Lemma sum_of_positive_parts (values : list float) :
  forall acc,
    (acc = 0%float \/ is_nan acc = true \/ (0 <? acc)%float = true) ->
    let total :=
      fold_left (fun acc value => (acc + Math_max [0%float; value])%float)
                values acc in
    total = 0%float \/ is_nan total = true \/ (0 <? total)%float = true.
Proof.
  induction values as [|v values IH]; intros acc Hacc; cbn [fold_left].
  - exact Hacc.
  - apply IH. apply add_zero_or_above; [exact Hacc|].
    destruct (Math_max_zero_cases v) as [H | [H | [H1 H2]]]; auto.
    right; right. now rewrite H1.
Qed.

Lemma orNumber_above_zero (x : float) :
  (x = 0%float \/ is_nan x = true \/ (0 <? x)%float = true) ->
  (0 <? orNumber x 1)%float = true.
Proof.
  unfold orNumber. intros [-> | [H | H]].
  - reflexivity.
  - now rewrite H.
  - now destruct (is_nan x || (x =? 0)%float).
Qed.

Lemma totalPositive_above_zero (t : Totals) :
  (0 <? totalPositive t)%float = true.
Proof.
  unfold totalPositive. apply orNumber_above_zero.
  apply (sum_of_positive_parts (chartValues t) 0%float). now left.
Qed.

(** A product with 100 of a value that is not below zero is not below zero. *)
Lemma times_100_not_negative (x : float) :
  (x <? 0)%float = false -> (x * 100 <? 0)%float = false.
Proof.
  intros Hx. apply not_negative_shape in Hx.
  apply shape_not_negative. rewrite mul_spec.
  change (Prim2SF 100) with (S754_finite false 7036874417766400 (-46)).
  destruct (Prim2SF x) as [sx|[]| |[] mx ex]; try contradiction;
    try exact I.
  pose proof (binary_round_aux_sign prec emax (xorb false false)
                (Zpos (mx * 7036874417766400)) (ex + -46) loc_Exact
                ltac:(lia)) as H.
  unfold SF64mul, SFmul.
  destruct (binary_round_aux _ _ _ _ _ _) as [s|s| |s m e];
    cbn [hasSign xorb] in H; try contradiction; subst; exact I.
Qed.

(** A sum of two values that are not below zero is not below zero. *)
Lemma add_not_negative (a g : float) :
  (a <? 0)%float = false -> (g <? 0)%float = false ->
  (a + g <? 0)%float = false.
Proof.
  intros Ha Hg. apply not_negative_shape in Ha, Hg.
  apply shape_not_negative. rewrite add_spec.
  destruct (Prim2SF a) as [sa|[]| |[] ma ea]; try contradiction;
    destruct (Prim2SF g) as [sg|[]| |[] mg eg]; try contradiction;
    try exact I.
  - now destruct sa, sg.
  - unfold SF64add, SFadd. cbn [cond_Zopp].
    destruct (Zpos _ + Zpos _)%Z as [|q|q] eqn:Eq; try lia.
    cbn [binary_normalize].
    pose proof (binary_round_sign prec emax false q (Z.min ea eg)) as H.
    destruct (binary_round prec emax false q (Z.min ea eg)) as [s|s| |s m e];
      cbn [hasSign] in H; try contradiction; subst; exact I.
Qed.

Lemma offsetAfter_not_negative (t : Totals) (values : list float) :
  forall offset,
    (offset <? 0)%float = false ->
    (fold_left (fun offset value => (offset + dash t value)%float)
               values offset <? 0)%float = false.
Proof.
  induction values as [|v values IH]; intros offset Hoff; cbn [fold_left].
  - exact Hoff.
  - apply IH. apply add_not_negative; [exact Hoff|].
    apply times_100_not_negative, div_not_negative.
    + apply Math_max_zero_not_negative.
    + apply totalPositive_above_zero.
Qed.

Lemma loss_has_no_positive_part (p : float) :
  (p <=? 0)%float = true -> Math_max [0%float; p] = 0%float.
Proof.
  intros H. rewrite Math_max_zero.
  rewrite (leb_zero_not_positive _ H).
  apply leb_zero_sign in H. rewrite is_nan_Prim2SF.
  destruct (Prim2SF p); try contradiction; reflexivity.
Qed.

(** X20. The donut never divides by zero: [totalPositive] is above zero
    whatever the totals (so neither zero nor [NaN]), no slice has a portion
    or a dash below zero, and the offset handed to the next slice is never
    below zero. When the trades show no profit the donut is empty:
    [totalPositive] is the fallback 1 and every slice has dash 0. *)
Theorem donut_never_divides_by_zero (t : Totals) (ts : list Trade)
    (value : float) (values : list float) :
  (0 <? totalPositive t)%float = true /\
  (portion t value <? 0)%float = false /\
  (dash t value <? 0)%float = false /\
  (offsetAfter t values <? 0)%float = false /\
  ((profit (totals ts) <=? 0)%float = true ->
   totalPositive (totals ts) = 1%float /\
   Forall (fun v => dash (totals ts) v = 0%float) (chartValues (totals ts))).
Proof.
  assert (Hportion : (portion t value <? 0)%float = false).
  { apply div_not_negative;
      [apply Math_max_zero_not_negative | apply totalPositive_above_zero]. }
  split; [apply totalPositive_above_zero|].
  split; [exact Hportion|].
  split; [now apply times_100_not_negative|].
  split; [now apply offsetAfter_not_negative|].
  intros Hloss.
  assert (Htaxable : taxable (totals ts) = 0%float)
    by (apply taxable_of_loss, Hloss).
  assert (Htax : tax (totals ts) = 0%float).
  { change (tax (totals ts)) with (taxable (totals ts) * TAX_RATE)%float.
    now rewrite Htaxable. }
  assert (Hnet : netAfterTax (totals ts) = profit (totals ts)).
  { unfold netAfterTax. now rewrite (leb_zero_not_positive _ Hloss). }
  assert (Htotal : totalPositive (totals ts) = 1%float).
  { unfold totalPositive, chartValues. cbn [fold_left].
    rewrite Hnet, Htax, Htaxable, (loss_has_no_positive_part _ Hloss).
    reflexivity. }
  split; [exact Htotal|].
  unfold dash, portion, chartValues. rewrite Htotal, Hnet, Htax, Htaxable.
  repeat constructor;
    rewrite ?(loss_has_no_positive_part _ Hloss); reflexivity.
Qed.

(** ** The bar chart *)

Lemma SFcompare_antisym (x y : spec_float) :
  SFcompare y x = option_map CompOpp (SFcompare x y).
Proof.
  destruct x as [[]|[]| |[] mx ex], y as [[]|[]| |[] my ey]; try reflexivity;
    cbn [SFcompare option_map]; f_equal;
    rewrite (Z.compare_antisym ex ey);
    destruct (ex ?= ey)%Z; cbn [CompOpp]; try reflexivity.
  - pose proof (Pos.compare_cont_antisym mx my Eq) as H.
    cbn [CompOpp] in H. now rewrite <- H.
  - pose proof (Pos.compare_cont_antisym mx my Eq) as H.
    cbn [CompOpp] in H. now rewrite <- H.
Qed.

Lemma SFleb_trans (x y z : spec_float) :
  SFleb x y = true -> SFleb y z = true -> SFleb x z = true.
Proof.
  unfold SFleb.
  destruct x as [[]|[]| |[] mx ex], y as [[]|[]| |[] my ey];
    try discriminate;
    destruct z as [[]|[]| |[] mz ez]; try discriminate; try reflexivity;
    cbn [SFcompare];
    destruct (Z.compare_spec ex ey); try discriminate;
    destruct (Z.compare_spec ey ez); try discriminate;
    destruct (Z.compare_spec ex ez); try reflexivity; try lia;
    rewrite ?Pos.compare_cont_spec; cbn [Pos.switch_Eq CompOpp];
    destruct (Pos.compare_spec mx my); try discriminate;
    destruct (Pos.compare_spec my mz); try discriminate;
    destruct (Pos.compare_spec mx mz); try reflexivity; lia.
Qed.

Lemma SFcompare_some (x y : spec_float) :
  x <> S754_nan -> y <> S754_nan -> exists c, SFcompare x y = Some c.
Proof.
  destruct x as [sx|sx| |sx mx ex], y as [sy|sy| |sy my ey]; intros Hx Hy;
    try (now elim Hx); try (now elim Hy); cbn [SFcompare]; eauto.
Qed.

Lemma is_nan_false_shape (x : float) :
  is_nan x = false -> Prim2SF x <> S754_nan.
Proof. rewrite is_nan_Prim2SF. intros H E. now rewrite E in H. Qed.

Lemma ltb_leb (x y : float) :
  (x <? y)%float = true -> (x <=? y)%float = true.
Proof.
  rewrite ltb_spec, leb_spec. unfold SFltb, SFleb.
  now destruct (SFcompare _ _) as [[]|].
Qed.

Lemma ltb_not_reverse (x y : float) :
  (x <? y)%float = true -> (y <? x)%float = false.
Proof.
  rewrite !ltb_spec. unfold SFltb.
  rewrite (SFcompare_antisym (Prim2SF x) (Prim2SF y)).
  now destruct (SFcompare _ _) as [[]|].
Qed.

Lemma not_ltb_leb (x y : float) :
  is_nan x = false -> is_nan y = false ->
  (x <? y)%float = false -> (y <=? x)%float = true.
Proof.
  intros Hx Hy. apply is_nan_false_shape in Hx, Hy.
  rewrite ltb_spec, leb_spec. unfold SFltb, SFleb.
  rewrite (SFcompare_antisym (Prim2SF x) (Prim2SF y)).
  destruct (SFcompare_some _ _ Hx Hy) as [c ->].
  now destruct c.
Qed.

Lemma leb_refl (x : float) : is_nan x = false -> (x <=? x)%float = true.
Proof.
  intros Hx. apply is_nan_false_shape in Hx.
  rewrite leb_spec. unfold SFleb. now rewrite SFcompare_refl.
Qed.

Lemma leb_trans (x y z : float) :
  (x <=? y)%float = true -> (y <=? z)%float = true -> (x <=? z)%float = true.
Proof. rewrite !leb_spec. apply SFleb_trans. Qed.

Lemma leb_not_nan (x y : float) :
  (x <=? y)%float = true -> is_nan x = false /\ is_nan y = false.
Proof.
  rewrite leb_spec, !is_nan_Prim2SF. unfold SFleb.
  destruct (Prim2SF x) as [sx|sx| |sx mx ex], (Prim2SF y) as [sy|sy| |sy my ey];
    cbn [SFcompare]; intros H; try discriminate; split; reflexivity.
Qed.

Lemma negative_zero_leb (x y : float) :
  isNegativeZero x = true -> isPositiveZero y = true ->
  (x <=? y)%float = true.
Proof.
  unfold isNegativeZero, isPositiveZero.
  rewrite !classify_spec, leb_spec. unfold SF64classify, SFclassify.
  destruct (Prim2SF x) as [[]|[]| |[] mx ex];
    try discriminate; try (destruct (_ =? _)%Z; discriminate);
    intros _;
    destruct (Prim2SF y) as [[]|[]| |[] my ey];
    try discriminate; try (destruct (_ =? _)%Z; discriminate).
  reflexivity.
Qed.

(** [Math.max] is [NaN] exactly when one of the values is. *)
Lemma maxFrom_is_nan (values : list float) :
  forall highest,
    is_nan highest = false ->
    is_nan (maxFrom highest values) = existsb is_nan values.
Proof.
  induction values as [|v values IH]; intros h Hh; cbn [maxFrom existsb].
  - exact Hh.
  - destruct (is_nan v) eqn:Ev; [reflexivity|]. cbn [orb].
    destruct (isNegativeZero h && isPositiveZero v); [now apply IH|].
    destruct (h <? v)%float; now apply IH.
Qed.

(** Without [NaN], [Math.max] is at least each of the values. *)
Lemma maxFrom_upper (values : list float) :
  forall highest,
    is_nan highest = false -> existsb is_nan values = false ->
    (highest <=? maxFrom highest values)%float = true /\
    Forall (fun v => (v <=? maxFrom highest values)%float = true) values.
Proof.
  induction values as [|v values IH]; intros h Hh Hvs;
    cbn [maxFrom existsb] in *.
  - split; [now apply leb_refl | constructor].
  - apply orb_false_iff in Hvs. destruct Hvs as [Hv Hvs]. rewrite Hv.
    assert (Hstep : forall h', is_nan h' = false ->
              (h <=? h')%float = true -> (v <=? h')%float = true ->
              (h <=? maxFrom h' values)%float = true /\
              Forall (fun x => (x <=? maxFrom h' values)%float = true)
                     (v :: values)).
    { intros h' Hh' Hle Hvle. destruct (IH h' Hh' Hvs) as [H1 H2].
      split; [now apply (leb_trans _ h')|].
      constructor; [now apply (leb_trans _ h') | exact H2]. }
    destruct (isNegativeZero h && isPositiveZero v) eqn:Ez.
    + apply andb_true_iff in Ez. destruct Ez as [Ez1 Ez2].
      apply Hstep; [exact Hv | now apply negative_zero_leb | now apply leb_refl].
    + destruct (h <? v)%float eqn:El.
      * apply Hstep; [exact Hv | now apply ltb_leb | now apply leb_refl].
      * apply Hstep; [exact Hh | now apply leb_refl | now apply not_ltb_leb].
Qed.

Lemma is_nan_abs (x : float) : is_nan (Math_abs x) = is_nan x.
Proof.
  unfold Math_abs. rewrite !is_nan_Prim2SF, abs_spec.
  now destruct (Prim2SF x).
Qed.

Lemma existsb_is_nan_abs (values : list float) :
  existsb is_nan (map Math_abs values ++ [1%float]) = existsb is_nan values.
Proof.
  rewrite existsb_app. cbn [existsb]. change (is_nan 1) with false.
  rewrite !orb_false_r.
  induction values as [|v values IH]; [reflexivity|].
  cbn [map existsb]. now rewrite is_nan_abs, IH.
Qed.

Lemma Math_min_100 (r : float) :
  Math_min [100%float; r] =
  if is_nan r then nan else if (r <? 100)%float then r else 100%float.
Proof. reflexivity. Qed.

Lemma finite_shape (x : float) :
  isFinite x = true ->
  match Prim2SF x with
  | S754_zero _ | S754_finite _ _ _ => True
  | _ => False
  end.
Proof.
  unfold isFinite, is_finite, is_infinity.
  rewrite is_nan_Prim2SF, eqb_spec, abs_spec.
  destruct (Prim2SF x) as [s|s| |s m e]; trivial; discriminate.
Qed.

Lemma one_leb_shape (y : float) :
  (1 <=? y)%float = true -> isPositive (Prim2SF y).
Proof.
  rewrite leb_spec.
  change (Prim2SF 1) with (S754_finite false 4503599627370496 (-52)).
  destruct (Prim2SF y) as [s|[]| |[] m e]; try discriminate; intros _; exact I.
Qed.

Lemma hasSign_false_zero_leb (x : float) :
  hasSign false (Prim2SF x) -> (0 <=? x)%float = true /\ is_nan x = false.
Proof.
  rewrite leb_spec, is_nan_Prim2SF, Prim2SF_zero.
  destruct (Prim2SF x) as [s|s| |s m e]; cbn [hasSign]; intros H;
    try contradiction; subst; split; reflexivity.
Qed.

(** The scaled length of a bar, when the value is finite and the scale is at
    least 1: zero, infinite or finite, and not negative. *)
Lemma scaled_sign (value scale : float) :
  isFinite value = true -> (1 <=? scale)%float = true ->
  hasSign false (Prim2SF (Math_abs value / scale * 100)).
Proof.
  intros Hv Hs. apply finite_shape in Hv. apply one_leb_shape in Hs.
  unfold Math_abs. rewrite mul_spec, div_spec, abs_spec.
  change (Prim2SF 100) with (S754_finite false 7036874417766400 (-46)).
  assert (Hq : hasSign false
                 (SF64div (SFabs (Prim2SF value)) (Prim2SF scale))).
  { destruct (Prim2SF value) as [sv| | |sv mv ev]; try contradiction;
      destruct (Prim2SF scale) as [ss|[]| |[] ms es]; try contradiction;
      try reflexivity.
    cbn [SFabs]. unfold SF64div, SFdiv, SFdiv_core_binary.
    set (m' := match _ with Z0 => Zpos mv | Zpos _ => _ | Zneg _ => 0%Z end).
    assert (Hm' : (0 <= m')%Z).
    { unfold m'. destruct (_ - _ - _)%Z; try lia. apply Z.shiftl_nonneg. lia. }
    pose proof (Z.div_pos m' (Zpos ms) Hm' ltac:(lia)) as Hq.
    unfold Z.div in Hq.
    destruct (Z.div_eucl m' (Zpos ms)) as [q r]. cbn [fst] in Hq.
    apply binary_round_aux_sign. exact Hq. }
  destruct (SF64div _ _) as [s|s| |s m e]; cbn [hasSign] in Hq;
    try contradiction; subst; try reflexivity.
  unfold SF64mul, SFmul. apply binary_round_aux_sign. lia.
Qed.

Lemma div_nan (x y : float) :
  is_nan y = true -> (x / y * 100 <? 0)%float = false.
Proof.
  intros Hy. apply nan_not_negative.
  rewrite is_nan_Prim2SF in *. rewrite mul_spec, div_spec.
  destruct (Prim2SF y); try discriminate.
  now destruct (Prim2SF x).
Qed.

Lemma abs_not_negative (x : float) : (Math_abs x <? 0)%float = false.
Proof.
  apply shape_not_negative. unfold Math_abs. rewrite abs_spec.
  now destruct (Prim2SF x).
Qed.

(** X21. The scale of the bar chart is [NaN] exactly when one of the four
    values is; otherwise it is at least 1 and at least the absolute value
    of each of them. The width of a bar is never below 0 and never above
    100, and when no chart value is [NaN] the width of a finite value is a
    number between 0 and 100. *)
Theorem bar_widths_are_percentages (t : Totals) (value : float) :
  is_nan (maxChartValue t) = existsb is_nan (chartValues t) /\
  (existsb is_nan (chartValues t) = false ->
   (1 <=? maxChartValue t)%float = true /\
   Forall (fun v => (Math_abs v <=? maxChartValue t)%float = true)
          (chartValues t)) /\
  (barWidth t value <? 0)%float = false /\
  (100 <? barWidth t value)%float = false /\
  (existsb is_nan (chartValues t) = false -> isFinite value = true ->
   (0 <=? barWidth t value)%float = true /\
   (barWidth t value <=? 100)%float = true).
Proof.
  assert (Hnan : is_nan (maxChartValue t) = existsb is_nan (chartValues t)).
  { unfold maxChartValue, Math_max.
    rewrite maxFrom_is_nan by reflexivity. apply existsb_is_nan_abs. }
  assert (Hupper : existsb is_nan (chartValues t) = false ->
            (1 <=? maxChartValue t)%float = true /\
            Forall (fun v => (Math_abs v <=? maxChartValue t)%float = true)
                   (chartValues t)).
  { intros Hno. rewrite <- existsb_is_nan_abs in Hno.
    destruct (maxFrom_upper _ neg_infinity eq_refl Hno) as [_ Hall].
    fold (Math_max (map Math_abs (chartValues t) ++ [1%float])) in Hall.
    fold (maxChartValue t) in Hall.
    apply Forall_app in Hall. destruct Hall as [Habs Hone]. split.
    - now inversion Hone.
    - rewrite Forall_map in Habs. exact Habs. }
  split; [exact Hnan|]. split; [exact Hupper|].
  unfold barWidth. rewrite Math_min_100.
  set (r := (Math_abs value / maxChartValue t * 100)%float).
  assert (Hr : (r <? 0)%float = false).
  { destruct (existsb is_nan (chartValues t)).
    - now apply div_nan.
    - destruct (Hupper eq_refl) as [Hone _].
      apply times_100_not_negative, div_not_negative.
      + apply abs_not_negative.
      + apply isPositive_spec. now apply one_leb_shape. }
  split; [|split].
  - destruct (is_nan r); [reflexivity|].
    destruct (r <? 100)%float; [exact Hr | reflexivity].
  - destruct (is_nan r); [reflexivity|].
    destruct (r <? 100)%float eqn:E; [|reflexivity].
    now apply ltb_not_reverse.
  - intros Hno Hfin. destruct (Hupper Hno) as [Hone _].
    destruct (hasSign_false_zero_leb r (scaled_sign _ _ Hfin Hone))
      as [Hzero ->].
    destruct (r <? 100)%float eqn:E.
    + split; [exact Hzero | now apply ltb_leb].
    + split; reflexivity.
Qed.

Lemma bar_widths_are_percentages_witness :
  existsb is_nan (chartValues (totals [])) = false /\
  isFinite 7%float = true /\
  (0 <=? barWidth (totals []) 7)%float = true /\
  (barWidth (totals []) 7 <=? 100)%float = true.
Proof.
  split; [reflexivity|]. split; [reflexivity|].
  apply (bar_widths_are_percentages (totals []) 7%float); reflexivity.
Defined.

(** ** The header line *)

Section HeaderLine.

Variable h : Host.

(** X8. An import yields at most one trade for each non-blank line after
    the first and draws exactly one identifier for each trade it yields.
    The header line never becomes a trade: the data of the trades are those
    of the kept lines after the first, in the order of the file, and every
    trade is the trade of a line after the first. So a header that reads as
    a row, 3 amount and 4 price, above the row 1,2 gives the one trade of
    amount 1 and price 2. *)
Theorem import_count (text : jsstring) (n : nat) :
  List.length (fst (parseCsvToTrades h text n)) <= List.length (linesOf text) - 1 /\
  snd (parseCsvToTrades h text n) =
    n + List.length (fst (parseCsvToTrades h text n)) /\
  map tradeData (fst (parseCsvToTrades h text n)) =
    rowsData h (columnsOfText text) (skipn 1 (linesOf text)) /\
  Forall (fun t => exists k line m,
              nth_error (linesOf text) (S k) = Some line /\
              rowToTrade h (columnsOfText text) line m = Some t)
         (fst (parseCsvToTrades h text n)) /\
  map (fun t => (amount t, price t))
      (fst (parseCsvToTrades h
              (utf16 "3 amount,4 price" ++ [LF] ++ utf16 "1,2") n))
  = [(1, 2)%float].
Proof.
  destruct (import_count_aux h text n) as [Hle Hsnd].
  split; [exact Hle|]. split; [exact Hsnd|].
  split; [|split; [|reflexivity]].
  - unfold parseCsvToTrades. cbv zeta.
    destruct (Nat.ltb _ 2) eqn:E.
    + apply Nat.ltb_lt in E.
      destruct (linesOf text) as [|l0 [|l1 ls]]; cbn [List.length] in E;
        try lia; reflexivity.
    + apply parseRows_data.
  - unfold parseCsvToTrades. cbv zeta.
    destruct (Nat.ltb _ 2); [constructor|].
    fold (columnsOfText text).
    apply parseRows_Forall. intros line m t Hin Hrow.
    destruct (In_nth_error _ _ Hin) as [k Hk].
    exists k, line, m. split; [|exact Hrow].
    rewrite nth_error_skipn in Hk. exact Hk.
Qed.

End HeaderLine.
